(** * VAPr: chunked annotation collection and merge

    A shallow embedding of the chunk pipeline of VAPr
    ([VAPr/annotation_project.py], [VAPr/vapr_core.py]): the job
    partitioner, the identifier normaliser, the MyVariant.info client
    with its retry, the post-processing of remote records, and the merge
    of ANNOVAR and MyVariant records.

    Python dictionaries are [gmap string pyval]; dictionaries that the
    code mutates in place live in a heap of objects addressed by
    reference.  Exceptions are an explicit error type. *)

From Stdlib Require Import ZArith Lia Ascii.
From stdpp Require Import base tactics option list list_numbers strings gmap fin_maps pretty.

Local Open Scope Z_scope.

(** ** Python values, exceptions and results *)

(** The exceptions the modelled code can raise. *)
Inductive exn : Type :=
  | KeyError (key : string)
  | IndexError
  | ValueError (msg : string)
  | ZeroDivisionError
  | IOError (path : string)
  | ServiceError (what : string).

(** Outcome of a call: a value, or a raised exception. *)
Inductive result (A : Type) : Type :=
  | Ok (a : A)
  | Raise (e : exn).
Arguments Ok {A} a.
Arguments Raise {A} e.

(** Sequencing stops at the first raised exception; stdpp's monadic
    notation [x ← r; k] is used for it. *)
#[global] Instance result_ret : MRet result := λ A a, Ok a.
#[global] Instance result_bind : MBind result := λ A B k r,
  match r with
  | Ok a => k a
  | Raise e => Raise e
  end.

#[global] Instance result_fmap : FMap result := λ A B f r,
  match r with
  | Ok a => Ok (f a)
  | Raise e => Raise e
  end.

Definition is_Raise {A : Type} (r : result A) : Prop := ∃ e, r = Raise e.

(** ** Job partitioner *)

(** A slot of the positional job-parameter tuple. *)
Inductive param : Type :=
  | ParNone
  | ParInt (z : Z)
  | ParStr (s : string)
  | ParNames (names : list string).

Module AnnotationJobParamsIndices.
Definition CHUNK_INDEX_INDEX : nat := 0.
Definition FILE_PATH_INDEX : nat := 1.
Definition CHUNK_SIZE_INDEX : nat := 2.
Definition DB_NAME_INDEX : nat := 3.
Definition COLLECTION_NAME_INDEX : nat := 4.
Definition GENOME_BUILD_VERSION_INDEX : nat := 5.
Definition VERBOSE_LEVEL_INDEX : nat := 6.
Definition SAMPLE_LIST_INDEX : nat := 7.

Definition get_num_possible_indices : nat :=
  let max_index :=
    foldr Nat.max 0%nat
      [CHUNK_INDEX_INDEX; FILE_PATH_INDEX; CHUNK_SIZE_INDEX; DB_NAME_INDEX;
       COLLECTION_NAME_INDEX; GENOME_BUILD_VERSION_INDEX; VERBOSE_LEVEL_INDEX;
       SAMPLE_LIST_INDEX] in
  (max_index + 1)%nat.
End AnnotationJobParamsIndices.
Import AnnotationJobParamsIndices.

(** A file system: the lines of each readable file. *)
Definition filesystem : Type := gmap string (list string).

Definition _get_num_lines_in_file (fs : filesystem) (file_path : string) : result Z :=
  match fs !! file_path with
  | Some lines => Ok (Z.of_nat (length lines))
  | None => Raise (IOError file_path)
  end.

(** [int(a / b)] under [from __future__ import division]: the true
    quotient truncated towards zero; dividing by zero raises.  Line
    counts and chunk sizes are far below 2^53, where the float quotient
    truncates to the exact integer quotient. *)
Definition int_true_div (a b : Z) : result Z :=
  if decide (b = 0) then Raise ZeroDivisionError else Ok (Z.quot a b).

(** One pass of the [for curr_chunk_index in range(num_steps)] loop: the
    shared list is updated in place and a tuple snapshot is appended. *)
Definition jobs_loop_body (st : list param * list (list param)) (curr_chunk_index : Z)
    : list param * list (list param) :=
  let shared_job_params := <[CHUNK_INDEX_INDEX := ParInt curr_chunk_index]> st.1 in
  (shared_job_params, st.2 ++ [shared_job_params]).

Module VaprAnnotator.
Definition _make_jobs_params_tuples_list
    (file_path : string) (num_file_lines chunk_size : Z)
    (db_name collection_name genome_build_version : string)
    (sample_names_list : option (list string)) (verbose_level : Z)
    : result (list (list param)) :=
  let num_params := get_num_possible_indices in
  let shared_job_params :=
    match sample_names_list with
    | Some names => <[SAMPLE_LIST_INDEX := ParNames names]> (replicate num_params ParNone)
    | None => replicate (num_params - 1) ParNone
    end in
  let shared_job_params := <[CHUNK_SIZE_INDEX := ParInt chunk_size]> shared_job_params in
  let shared_job_params := <[FILE_PATH_INDEX := ParStr file_path]> shared_job_params in
  let shared_job_params := <[DB_NAME_INDEX := ParStr db_name]> shared_job_params in
  let shared_job_params := <[COLLECTION_NAME_INDEX := ParStr collection_name]> shared_job_params in
  let shared_job_params :=
    <[GENOME_BUILD_VERSION_INDEX := ParStr genome_build_version]> shared_job_params in
  let shared_job_params := <[VERBOSE_LEVEL_INDEX := ParInt verbose_level]> shared_job_params in
  q ← int_true_div num_file_lines chunk_size ;
  let num_steps := q + 1 in
  Ok (foldl jobs_loop_body (shared_job_params, []) (seqZ 0 num_steps)).2.
End VaprAnnotator.

Module AnnotationProject.
(** Same body as [VaprAnnotator._make_jobs_params_tuples_list], after
    counting the lines of the file itself. *)
Definition _make_jobs_params_tuples_list
    (fs : filesystem) (file_path : string) (chunk_size : Z)
    (db_name collection_name genome_build_version : string)
    (sample_names_list : option (list string)) (verbose_level : Z)
    : result (list (list param)) :=
  num_lines ← _get_num_lines_in_file fs file_path ;
  VaprAnnotator._make_jobs_params_tuples_list file_path num_lines chunk_size
    db_name collection_name genome_build_version sample_names_list verbose_level.
End AnnotationProject.

(** What a worker reads back from a job tuple. *)
Definition job_chunk_index (job : list param) : option Z :=
  match job !! CHUNK_INDEX_INDEX with Some (ParInt i) => Some i | _ => None end.

Definition job_chunk_size (job : list param) : option Z :=
  match job !! CHUNK_SIZE_INDEX with Some (ParInt n) => Some n | _ => None end.

(** Half-open line range [chunk_index * chunk_size, (chunk_index + 1) * chunk_size)
    that the worker slices out of its source. *)
Definition job_line_range (job : list param) : option (Z * Z) :=
  match job_chunk_index job, job_chunk_size job with
  | Some i, Some n => Some (i * n, (i + 1) * n)
  | _, _ => None
  end.





(** ** Variant identifier normaliser *)

(** Python's [needle in hay] on strings: [needle] occurs as a substring. *)
Fixpoint py_in (needle hay : string) : bool :=
  match hay with
  | EmptyString => String.prefix needle hay
  | String _ rest => String.prefix needle hay || py_in needle rest
  end.

(** Python's [s.split(sep)] for a one-character separator: the maximal
    pieces between separators, empty pieces included. *)
Fixpoint py_split (sep : ascii) (s : string) : list string :=
  match s with
  | EmptyString => [EmptyString]
  | String c rest =>
      if decide (c = sep) then EmptyString :: py_split sep rest
      else match py_split sep rest with
           | piece :: pieces => String c piece :: pieces
           | [] => [String c EmptyString]
           end
  end.

(** Python's [l[i]] for a non-negative index. *)
Definition py_getitem {A : Type} (l : list A) (i : nat) : result A :=
  match l !! i with
  | Some x => Ok x
  | None => Raise IndexError
  end.

Definition _complete_chromosome (hgvs_id : string) : result string :=
  let result := hgvs_id in
  if py_in "M" hgvs_id then
    one ← py_getitem (py_split ":" hgvs_id) 0 ;
    two ← py_getitem (py_split ":" hgvs_id) 1 ;
    let one := if negb (py_in "MT" one) then "chrMT" else one in
    Ok (String.concat "" [one; ":"; two])
  else Ok result.

(** [s] has no occurrence of the character [c]. *)
Fixpoint no_char (c : ascii) (s : string) : Prop :=
  match s with
  | EmptyString => True
  | String a rest => a ≠ c ∧ no_char c rest
  end.

(** ** Python values, dictionaries and the object heap *)

(** Field values.  The modelled code compares and prints identifier
    values only, and those are strings or [None]; the equality of these
    values in Python is structural. *)
Inductive pyval : Type :=
  | PNone
  | PInt (z : Z)
  | PStr (s : string).

#[global] Instance pyval_eq_dec : EqDecision pyval.
Proof. solve_decision. Defined.

(** Python's [str(v)]. *)
Definition py_str (v : pyval) : string :=
  match v with
  | PNone => "None"
  | PInt z => pretty z
  | PStr s => s
  end.

(** Python's [str(error)] of an exception. *)
Definition exn_str (e : exn) : string :=
  match e with
  | KeyError key => "'" +:+ key +:+ "'"
  | IndexError => "list index out of range"
  | ValueError msg => msg
  | ZeroDivisionError => "division by zero"
  | IOError path => path
  | ServiceError what => what
  end.

(** A record is a dictionary from field names to values; dictionaries
    are objects in a heap, and the code holds references to them. *)
Abbreviation record := (gmap string pyval).
Abbreviation loc := nat (only parsing).

(** What the code does to the outside: log lines, sleeps, calls of the
    remote service. *)
Inductive event : Type :=
  | ELog (msg : string)
  | ESleep (seconds : Z)
  | EGetVariants (ids : list string) (assembly : string).

Record world : Type := World {
  heap : gmap nat record;
  attempts : nat;
  trace : list event
}.

Definition set_heap (h : gmap nat record) (w : world) : world :=
  World h (attempts w) (trace w).

Definition emit (e : event) (w : world) : world :=
  World (heap w) (attempts w) (trace w ++ [e]).

(** Computations on the world that may raise; a raised exception keeps
    the mutations made so far. *)
Definition M (A : Type) : Type := world → result A * world.

Definition ret {A : Type} (a : A) : M A := λ w, (Ok a, w).

Definition bind {A B : Type} (m : M A) (k : A → M B) : M B := λ w,
  match m w with
  | (Ok a, w') => k a w'
  | (Raise e, w') => (Raise e, w')
  end.

Notation "'let!' x ':=' m 'in' k" := (bind m (λ x, k))
  (at level 10, x pattern, m at level 100, k at level 200, only parsing).

Definition raise {A : Type} (e : exn) : M A := λ w, (Raise e, w).

Definition lift {A : Type} (r : result A) : M A := λ w, (r, w).

(** The dictionary behind a reference.  A Python program holds no
    reference to a missing object; the model answers such a lookup with
    an empty-key [KeyError]. *)
Definition deref (d : loc) : M record := λ w,
  match heap w !! d with
  | Some fields => (Ok fields, w)
  | None => (Raise (KeyError ""), w)
  end.

(** [d[key]] *)
Definition dict_getitem (d : loc) (key : string) : M pyval :=
  let! fields := deref d in
  match fields !! key with
  | Some v => ret v
  | None => raise (KeyError key)
  end.

(** [d[key] = v] *)
Definition dict_setitem (d : loc) (key : string) (v : pyval) : M unit :=
  let! fields := deref d in
  λ w, (Ok (), set_heap (<[d := <[key := v]> fields]> (heap w)) w).

(** [d.pop(key, default)] *)
Definition dict_pop (d : loc) (key : string) (default : pyval) : M pyval :=
  let! fields := deref d in
  match fields !! key with
  | Some v => λ w, (Ok v, set_heap (<[d := delete key fields]> (heap w)) w)
  | None => ret default
  end.

(** [d.update(other)]: the fields of [other] overwrite those of [d]. *)
Definition dict_update (d other : loc) : M unit :=
  let! other_fields := deref other in
  let! fields := deref d in
  λ w, (Ok (), set_heap (<[d := other_fields ∪ fields]> (heap w)) w).

(** [for x in l: body(x)] *)
Fixpoint for_each {A : Type} (l : list A) (body : A → M unit) : M unit :=
  match l with
  | [] => ret ()
  | x :: rest => let! _ := body x in for_each rest body
  end.

(** ** Merge engine *)

Definition _merge_annovar_and_myvariant_dicts (myvariant_dict annovar_dict : loc) : M loc :=
  let! myvariant_id := dict_getitem myvariant_dict "hgvs_id" in
  let! annovar_id := dict_getitem annovar_dict "hgvs_id" in
  if decide (myvariant_id ≠ annovar_id) then
    raise (ValueError ("myvariant hgvs_id " +:+ py_str myvariant_id
                       +:+ " not equal to annovar hgvs_id " +:+ py_str annovar_id))
  else
    let! _ := dict_update annovar_dict myvariant_dict in
    ret annovar_dict.

(** The loop [for i in range(0, len(hgvs_ids_list))] of
    [_collect_chunk_annotations_and_store], over the remaining indices,
    appending to [variant_dicts_to_store]. *)
Fixpoint merge_loop (indices : list nat) (myvariants_variants annovar_variants : list loc)
    (variant_dicts_to_store : list loc) : M (list loc) :=
  match indices with
  | [] => ret variant_dicts_to_store
  | i :: rest =>
      let! myvariant_dict := lift (py_getitem myvariants_variants i) in
      let! annovar_dict := lift (py_getitem annovar_variants i) in
      let! merged := _merge_annovar_and_myvariant_dicts myvariant_dict annovar_dict in
      merge_loop rest myvariants_variants annovar_variants (variant_dicts_to_store ++ [merged])
  end.

(** The dictionaries behind a list of references, as the store sink
    receives them. *)
Fixpoint deref_all (ds : list loc) : M (list record) :=
  match ds with
  | [] => ret []
  | d :: rest =>
      let! fields := deref d in
      let! others := deref_all rest in
      ret (fields :: others)
  end.

(** The end of [_collect_chunk_annotations_and_store], from
    [variant_dicts_to_store = myvariants_variants] on.  [annovar_variants]
    is [None] exactly when [merge_variants] is false.  The store sink
    [VAPr.queries.store_annotations_to_db] is a parameter. *)
Definition merge_and_store
    (store_annotations_to_db : list record → string → string → M pyval)
    (hgvs_ids_list : list string) (myvariants_variants : list loc)
    (annovar_variants : option (list loc)) (db_name collection_name : string) : M pyval :=
  let! variant_dicts_to_store :=
    match annovar_variants with
    | Some annovar_variants =>
        merge_loop (seq 0 (length hgvs_ids_list)) myvariants_variants annovar_variants []
    | None => ret myvariants_variants
    end in
  let! docs := deref_all variant_dicts_to_store in
  store_annotations_to_db docs db_name collection_name.

(** The identifier field of the object behind a reference. *)
Definition id_of (h : gmap nat record) (d : loc) : option pyval :=
  h !! d ≫= λ fields, fields !! "hgvs_id".

(** ** Remote annotation client *)

(** [dic['hgvs_id'] = dic.pop("_id", None); dic['hgvs_id'] = dic.pop("query", None)] *)
Definition remove_id_key_body (dic : loc) : M unit :=
  let! v := dict_pop dic "_id" PNone in
  let! _ := dict_setitem dic "hgvs_id" v in
  let! v := dict_pop dic "query" PNone in
  dict_setitem dic "hgvs_id" v.

Definition _remove_id_key (variant_data : list loc) : M (list loc) :=
  let! _ := for_each variant_data remove_id_key_body in
  ret variant_data.

(** A new dictionary object. *)
Definition alloc (fields : record) : M loc := λ w,
  let d := fresh (dom (heap w)) in
  (Ok d, set_heap (<[d := fields]> (heap w)) w).

Fixpoint alloc_all (records : list record) : M (list loc) :=
  match records with
  | [] => ret []
  | fields :: rest =>
      let! d := alloc fields in
      let! ds := alloc_all rest in
      ret (d :: ds)
  end.

(** The remote service: what its [n]-th call answers for a list of
    identifiers and an assembly, a list of records or an exception. *)
Definition service : Type := nat → list string → string → result (list record).

(** [mv.getvariants(hgvs_ids_list, ..., assembly=genome_build_version)]:
    one more call of the service; the records it answers are new
    dictionary objects. *)
Definition call_getvariants (mv : service) (hgvs_ids_list : list string)
    (genome_build_version : string) : M (list loc) := λ w,
  let w1 := World (heap w) (S (attempts w))
                  (trace w ++ [EGetVariants hgvs_ids_list genome_build_version]) in
  match mv (attempts w) hgvs_ids_list genome_build_version with
  | Ok records => alloc_all records w1
  | Raise error => (Raise error, w1)
  end.

(** The client.  [fuel] bounds the depth of the recursion on failure;
    [None] means that the depth was not enough for the call to return.
    [verbose] is an integer, [True] and [False] being 1 and 0. *)
Fixpoint _get_myvariantinfo_annotations_dict (mv : service) (fuel : nat)
    (hgvs_ids_list : list string) (genome_build_version : string) (verbose : Z)
    (w : world) : option (result (list loc) * world) :=
  match fuel with
  | O => None
  | S fuel =>
      let verbose := if decide (2 ≤ verbose) then 1 else 0 in
      match call_getvariants mv hgvs_ids_list genome_build_version w with
      | (Ok getvariants, w) =>
          let variant_data := getvariants in
          Some (_remove_id_key variant_data w)
      | (Raise error, w) =>
          let w := emit (ELog ("Error: " +:+ exn_str error
                               +:+ "while fetching from MyVariant, retrying...")) w in
          let w := emit (ESleep 5) w in
          match _get_myvariantinfo_annotations_dict mv fuel hgvs_ids_list
                  genome_build_version verbose w with
          | None => None
          | Some (Ok variant_data, w) => Some (_remove_id_key variant_data w)
          | Some (Raise e, w) => Some (Raise e, w)
          end
      end
  end.

(** What one failed attempt leaves in the trace: the call, the log line
    and the sleep. *)
Definition failed_attempt_trace (hgvs_ids_list : list string) (genome_build_version : string)
    (error : exn) : list event :=
  [EGetVariants hgvs_ids_list genome_build_version;
   ELog ("Error: " +:+ exn_str error +:+ "while fetching from MyVariant, retrying...");
   ESleep 5].

(** The trace of the failed attempts [n], [n+1], ..., [n+k-1]. *)
Fixpoint failed_attempts_trace (mv : service) (n k : nat) (hgvs_ids_list : list string)
    (genome_build_version : string) : list event :=
  match k with
  | O => []
  | S k =>
      match mv n hgvs_ids_list genome_build_version with
      | Raise error =>
          failed_attempt_trace hgvs_ids_list genome_build_version error
          ++ failed_attempts_trace mv (S n) k hgvs_ids_list genome_build_version
      | Ok _ => []
      end
  end.

(** ** Identifiers from a VCF source *)

Record vcf_record : Type := VcfRecord {
  CHROM : string;
  POS : Z;
  REF : string;
  ALT : list (option string)
}.

(** [str(alt)] of an alternate allele; a missing allele is [None]. *)
Definition alt_str (alt : option string) : string :=
  match alt with
  | Some bases => bases
  | None => "None"
  end.

(** [itertools.islice(it, start, stop)], read to the end. *)
Definition py_islice {A : Type} (l : list A) (start stop : Z) : result (list A) :=
  if decide (start < 0 ∨ stop < 0) then
    Raise (ValueError "Indices for islice() must be None or an integer")
  else Ok (take (Z.to_nat stop - Z.to_nat start)%nat (drop (Z.to_nat start) l)).

(** The body of the loop over the sliced records.  [format_hgvs] is
    [myvariant.format_hgvs], a parameter. *)
Fixpoint hgvs_ids_loop (format_hgvs : string → Z → string → string → result string)
    (records : list vcf_record) (hgvs_ids : list string) : result (list string) :=
  match records with
  | [] => Ok hgvs_ids
  | record :: rest =>
      alt0 ← py_getitem (ALT record) 0 ;
      hgvs_id ← format_hgvs (CHROM record) (POS record) (REF record) (alt_str alt0) ;
      normed_hgvs_id ← _complete_chromosome hgvs_id ;
      hgvs_ids_loop format_hgvs rest (hgvs_ids ++ [normed_hgvs_id])
  end.

(** [vcf.Reader(open(vcf_file_path, 'r'))]: the records of the file. *)
Definition vcf_Reader (vcfs : gmap string (list vcf_record)) (vcf_file_path : string)
    : result (list vcf_record) :=
  match vcfs !! vcf_file_path with
  | Some records => Ok records
  | None => Raise (IOError vcf_file_path)
  end.

Definition _get_hgvs_ids_from_vcf (format_hgvs : string → Z → string → string → result string)
    (vcfs : gmap string (list vcf_record)) (vcf_file_path : string)
    (chunk_index chunk_size : Z) : result (list string) :=
  reader ← vcf_Reader vcfs vcf_file_path ;
  let hgvs_ids : list string := [] in
  sliced ← py_islice reader (chunk_index * chunk_size) ((chunk_index + 1) * chunk_size) ;
  hgvs_ids_loop format_hgvs sliced hgvs_ids.


(** Two objects carry the same identifier. *)
Definition ids_agree (h : gmap nat record) (myvariant_dict annovar_dict : loc) : Prop :=
  ∃ v, id_of h myvariant_dict = Some v ∧ id_of h annovar_dict = Some v.

(** The references of a list point to the records of another list. *)
Definition records_at (h : gmap nat record) (ds : list loc) (rs : list record) : Prop :=
  Forall2 (λ d r, h !! d = Some r) ds rs.

(** The message of the identifier-mismatch error. *)
Definition mismatch_message (myvariant_id annovar_id : pyval) : string :=
  "myvariant hgvs_id " +:+ py_str myvariant_id
  +:+ " not equal to annovar hgvs_id " +:+ py_str annovar_id.

(** The fields of a merged document [doc] against the local and the
    remote record it was made of: every field of either is a field of
    [doc], [doc] has no other field, and a field of the remote record
    keeps the remote value. *)
Definition merged_fields (doc local remote : record) : Prop :=
  (∀ k, is_Some (local !! k) → is_Some (doc !! k))
  ∧ (∀ k, is_Some (remote !! k) → is_Some (doc !! k))
  ∧ (∀ k v, remote !! k = Some v → doc !! k = Some v)
  ∧ (∀ k v, local !! k = Some v → remote !! k = None → doc !! k = Some v)
  ∧ (∀ k, is_Some (doc !! k) → is_Some (local !! k) ∨ is_Some (remote !! k)).

(** Two records carry the same identifier. *)
Definition same_hgvs_id (remote local : record) : Prop :=
  ∃ v, remote !! "hgvs_id" = Some v ∧ local !! "hgvs_id" = Some v.

(** The value a [pop] or a [get] answers: the field, or the default. *)
Definition default_val (dflt : pyval) (o : option pyval) : pyval :=
  match o with
  | Some v => v
  | None => dflt
  end.

(** The record that one pass of the post-processing leaves: without
    '_id' and 'query', and with 'hgvs_id' set to the former 'query'
    value, [None] when there was none. *)
Definition strip_ids (fields : record) : record :=
  <["hgvs_id" := default_val PNone (fields !! "query")]> (delete "query" (delete "_id" fields)).


(** ** Sample data *)

Definition sample_id : pyval := PStr "chr1:g.100A>G".

Definition sample_remote : record :=
  {[ "hgvs_id" := sample_id; "cadd.phred" := PStr "12.3"; "source" := PStr "myvariant" ]}.

Definition sample_local : record :=
  {[ "hgvs_id" := sample_id; "gene" := PStr "BRCA1"; "source" := PStr "annovar" ]}.

Definition sample_other_remote : record :=
  {[ "hgvs_id" := PStr "chr2:g.5T>C"; "cadd.phred" := PStr "3.1" ]}.

(** Object 0 is a remote record, object 1 a local record with the same
    identifier, object 2 a remote record with another identifier. *)
Definition sample_world : world :=
  World {[ 0%nat := sample_remote; 1%nat := sample_local; 2%nat := sample_other_remote ]} 0 [].

(** A store sink that answers with the number of documents it got. *)
Definition counting_store (docs : list record) (db_name collection_name : string) : M pyval :=
  ret (PInt (Z.of_nat (length docs))).

(** A record as the service answers it for [sample_id]. *)
Definition sample_service_record : record :=
  {[ "_id" := sample_id; "query" := sample_id; "cadd.phred" := PStr "12.3" ]}.

(** A service whose first [failures] calls time out and whose later
    calls answer one record. *)
Definition flaky_service (failures : nat) : service := λ n _ _,
  if decide (n < failures)%nat then Raise (ServiceError "timed out")
  else Ok [sample_service_record].

Definition empty_world : world := World ∅ 0 [].

(** [myvariant.format_hgvs] for a substitution of one base, enough for
    the sample records. *)
Definition sample_format_hgvs (chrom : string) (pos : Z) (ref alt : string) : result string :=
  Ok (chrom +:+ ":g." +:+ pretty pos +:+ ref +:+ ">" +:+ alt).

(** Three records; the second has two alternate alleles. *)
Definition sample_vcf : list vcf_record :=
  [ VcfRecord "chr1" 100 "A" [Some "G"];
    VcfRecord "chrM" 7 "C" [Some "T"; Some "G"];
    VcfRecord "chr2" 5 "T" [Some "C"] ].

(** ** The worker's view of a job tuple *)

(** The parameters a worker reads from its job tuple, in the order of
    [_collect_chunk_annotations_and_store]; the sample list is read only
    when the tuple is long enough, which is also what switches the
    merge on. *)
Record job_params : Type := JobParams {
  jp_chunk_index : param;
  jp_chunk_size : param;
  jp_file_path : param;
  jp_db_name : param;
  jp_collection_name : param;
  jp_genome_build_version : param;
  jp_verbose_level : param;
  jp_sample_names_list : option param
}.

(** [merge_variants], true when the tuple has a slot for the samples. *)
Definition job_merge_variants (job_params_tuple : list param) : bool :=
  bool_decide (SAMPLE_LIST_INDEX < length job_params_tuple)%nat.

Definition read_job_params (job_params_tuple : list param) : result job_params :=
  chunk_index ← py_getitem job_params_tuple CHUNK_INDEX_INDEX ;
  chunk_size ← py_getitem job_params_tuple CHUNK_SIZE_INDEX ;
  file_path ← py_getitem job_params_tuple FILE_PATH_INDEX ;
  db_name ← py_getitem job_params_tuple DB_NAME_INDEX ;
  collection_name ← py_getitem job_params_tuple COLLECTION_NAME_INDEX ;
  genome_build_version ← py_getitem job_params_tuple GENOME_BUILD_VERSION_INDEX ;
  verbose_level ← py_getitem job_params_tuple VERBOSE_LEVEL_INDEX ;
  if job_merge_variants job_params_tuple then
    sample_names_list ← py_getitem job_params_tuple SAMPLE_LIST_INDEX ;
    Ok (JobParams chunk_index chunk_size file_path db_name collection_name
          genome_build_version verbose_level (Some sample_names_list))
  else
    Ok (JobParams chunk_index chunk_size file_path db_name collection_name
          genome_build_version verbose_level None).

(** ** Genome build validation ([VaprAnnotator]) *)

Definition HG19_VERSION : string := "hg19".
Definition HG38_VERSION : string := "hg38".
Definition DEFAULT_GENOME_VERSION : string := HG19_VERSION.
Definition SUPPORTED_GENOME_BUILD_VERSIONS : list string := [HG19_VERSION; HG38_VERSION].

Definition _get_validated_genome_version (input_genome_build_version : option string)
    : result string :=
  match input_genome_build_version with
  | None => Ok DEFAULT_GENOME_VERSION
  | Some version =>
      if decide (version ∉ SUPPORTED_GENOME_BUILD_VERSIONS) then
        let str_of_acceptable_versions := String.concat ", " SUPPORTED_GENOME_BUILD_VERSIONS in
        Raise (ValueError ("Input genome build version '" +:+ version
                           +:+ "' is not recognized. Supported builds are "
                           +:+ str_of_acceptable_versions))
      else Ok version
  end.

(** ** Batches of ANNOVAR jobs ([AnnovarWrapper.run_annovar]) *)






(** ** ANNOVAR database downloads ([AnnovarWrapper], [MyHandler]) *)

(** A dictionary that keeps its keys in insertion order, as the
    [OrderedDict] and, from Python 3.7 on, the [dict] of the code. *)
Fixpoint odict_get {V : Type} (d : list (string * V)) (key : string) : option V :=
  match d with
  | [] => None
  | (k, v) :: rest => if decide (k = key) then Some v else odict_get rest key
  end.

(** [d[key] = v]: a known key keeps its place. *)
Fixpoint odict_set {V : Type} (d : list (string * V)) (key : string) (v : V)
    : list (string * V) :=
  match d with
  | [] => [(key, v)]
  | (k, v0) :: rest =>
      if decide (k = key) then (k, v) :: rest else (k, v0) :: odict_set rest key v
  end.

(** The part of an [AnnovarWrapper] that the download commands use.
    [annovar_hosted] and [down_dd] come from [VAPr.definitions]. *)
Record annovar_wrapper : Type := AnnovarWrapperState {
  annovar : string;
  buildver : string;
  databases : list (string * string);
  annovar_hosted : gmap string bool;
  down_dd : string
}.

(** [for db in dbs: if db not in self.databases: raise ValueError(...)] *)
Fixpoint check_supported (self : annovar_wrapper) (dbs : list string) : result unit :=
  match dbs with
  | [] => Ok ()
  | db :: rest =>
      match odict_get (databases self) db with
      | None =>
          Raise (ValueError ("Database " +:+ db +:+ " not supported for build version "
                             +:+ buildver self))
      | Some _ => check_supported self rest
      end
  end.

(** [{db: self.databases[db] for db in dbs}], built key by key. *)
Fixpoint select_databases (self : annovar_wrapper) (dbs : list string)
    (selected : list (string * string)) : result (list (string * string)) :=
  match dbs with
  | [] => Ok selected
  | db :: rest =>
      match odict_get (databases self) db with
      | None => Raise (KeyError db)
      | Some operation => select_databases self rest (odict_set selected db operation)
      end
  end.

(** The loop [for db in self.databases] that appends one command per
    database. *)
Fixpoint db_dl_commands (self : annovar_wrapper) (dbs : list string)
    (command_list : list string) : result (list string) :=
  match dbs with
  | [] => Ok command_list
  | db :: rest =>
      match annovar_hosted self !! db with
      | None => Raise (KeyError db)
      | Some hosted =>
          let command :=
            if (hosted : bool) then
              String.concat " " ["perl"; annovar self +:+ "annotate_variation.pl"; "-build";
                                 buildver self; "-downdb"; down_dd self; db;
                                 annovar self +:+ "humandb/"]
            else
              String.concat " " ["perl"; annovar self +:+ "annotate_variation.pl"; "-build";
                                 buildver self; "-downdb"; db; annovar self +:+ "humandb/"] in
          db_dl_commands self rest (command_list ++ [command])
      end
  end.

Definition set_databases (self : annovar_wrapper) (dbs : list (string * string))
    : annovar_wrapper :=
  AnnovarWrapperState (annovar self) (buildver self) dbs (annovar_hosted self) (down_dd self).

(** The method: its result and the wrapper afterwards. *)
Definition build_db_dl_command_str (self : annovar_wrapper) (all_dbs : bool)
    (dbs : list string) : result (list string) * annovar_wrapper :=
  if negb all_dbs then
    match check_supported self dbs with
    | Raise e => (Raise e, self)
    | Ok _ =>
        match select_databases self dbs [] with
        | Raise e => (Raise e, self)
        | Ok selected =>
            let self := set_databases self selected in
            (db_dl_commands self (databases self).*1 [], self)
        end
    end
  else (db_dl_commands self (databases self).*1 [], self).

(** [l[-1]] *)
Definition py_last {A : Type} (l : list A) : result A :=
  match last l with
  | Some x => Ok x
  | None => Raise IndexError
  end.

(** [s[-2]], the character before the last one. *)
Definition py_str_at_neg2 (s : string) : result string :=
  match reverse (String.list_ascii_of_string s) with
  | _ :: c :: _ => Ok (String c EmptyString)
  | _ => Raise IndexError
  end.

(** [MyHandler.on_created]: the line it logs, and whether it stops the
    observer. *)
Definition on_created (cmds : list string) (src_path : string) : list string * result bool :=
  (["Downloading: " +:+ src_path],
   last_command ← py_last cmds ;
   c ← py_str_at_neg2 last_command ;
   Ok (py_in c src_path)).

(** A wrapper with three databases, for the examples. *)
Definition sample_wrapper : annovar_wrapper :=
  AnnovarWrapperState "/opt/annovar/" "hg19"
    [("knownGene", "g"); ("clinvar_20161128", "f"); ("cytoBand", "r")]
    {[ "knownGene" := false; "clinvar_20161128" := true; "cytoBand" := false ]}
    "webfrom annovar".

(* ================================================================= *)
(** * Properties *)

(** ** Job partitioner *)

Lemma jobs_loop_snd (l : list Z) (shared : list param) (acc : list (list param)) :
  (foldl jobs_loop_body (shared, acc) l).2
  = acc ++ ((λ i, <[CHUNK_INDEX_INDEX := ParInt i]> shared) <$> l).
Proof.
  revert shared acc. induction l as [|i l IH]; intros shared acc; simpl.
  - by rewrite app_nil_r.
  - unfold jobs_loop_body at 2. rewrite IH. cbn [fst snd].
    rewrite <- app_assoc. simpl. f_equal. f_equal.
    apply list_fmap_ext. intros _ j _. by rewrite list_insert_insert_eq.
Qed.









(** The example of the spec: 5 lines in chunks of 2 give the ranges
    [0,2), [2,4), [4,6). *)
Example partition_5_2 :
  (fmap (M := list) job_line_range)
    <$> VaprAnnotator._make_jobs_params_tuples_list "in.vcf" 5 2 "db" "coll" "hg19" None 1
  = Ok [Some (0, 2); Some (2, 4); Some (4, 6)].
Proof. reflexivity. Qed.




(** ** Variant identifier normaliser *)

Example complete_chromosome_hgvs_mito :
  _complete_chromosome "chrM:g.100A>G" = Ok "chrMT:g.100A>G".
Proof. reflexivity. Qed.

Example complete_chromosome_hgvs_auto :
  _complete_chromosome "chr1:g.100A>G" = Ok "chr1:g.100A>G".
Proof. reflexivity. Qed.

Example complete_chromosome_no_colon : _complete_chromosome "chrM" = Raise IndexError.
Proof. reflexivity. Qed.

Lemma prefix_nil (h : string) : String.prefix "" h = true.
Proof. by destruct h. Qed.

Lemma prefix_cons (a b : ascii) (n h : string) :
  String.prefix (String a n) (String b h)
  = if ascii_dec a b then String.prefix n h else false.
Proof. reflexivity. Qed.

Lemma prefix_app_r (n h t : string) :
  String.prefix n h = true → String.prefix n (h +:+ t) = true.
Proof.
  revert h. induction n as [|a n IH]; intros h; [by rewrite !prefix_nil|].
  destruct h as [|b h]; [done|].
  change (String b h +:+ t) with (String b (h +:+ t)). rewrite !prefix_cons.
  destruct (ascii_dec a b); [apply IH | done].
Qed.

Lemma py_in_cons (n : string) (b : ascii) (h : string) :
  py_in n (String b h) = String.prefix n (String b h) || py_in n h.
Proof. reflexivity. Qed.

Lemma py_in_app_r (n h t : string) : py_in n h = true → py_in n (h +:+ t) = true.
Proof.
  induction h as [|b h IH].
  - destruct n; [|done]. intros _. destruct t; reflexivity.
  - change (String b h +:+ t) with (String b (h +:+ t)). rewrite !py_in_cons.
    intros [Hp|Hin]%orb_true_iff; apply orb_true_iff.
    + left. by apply (prefix_app_r n (String b h) t).
    + right. by apply IH.
Qed.

Lemma py_in_MT_M (s : string) : py_in "MT" s = true → py_in "M" s = true.
Proof.
  induction s as [|b s IH]; [done|].
  rewrite !py_in_cons. intros [Hp|Hin]%orb_true_iff; apply orb_true_iff.
  - left. rewrite prefix_cons in Hp. rewrite prefix_cons.
    destruct (ascii_dec _ b); [apply prefix_nil | done].
  - right. by apply IH.
Qed.

Lemma py_split_no_char (sep : ascii) (s : string) :
  no_char sep s → py_split sep s = [s].
Proof.
  induction s as [|c s IH]; [done|]. intros [Hc Hs]. simpl.
  rewrite decide_False by done. by rewrite IH.
Qed.

Lemma py_split_app (sep : ascii) (a b : string) :
  no_char sep a → py_split sep (a +:+ String sep b) = a :: py_split sep b.
Proof.
  induction a as [|c a IH]; simpl.
  - intros _. by rewrite decide_True.
  - intros [Hc Ha]. rewrite decide_False by done. by rewrite IH.
Qed.

Lemma py_split_pieces (sep : ascii) (s : string) :
  py_split sep s ≠ [] ∧ Forall (no_char sep) (py_split sep s).
Proof.
  induction s as [|c s [Hne IH]]; simpl.
  - split; [done|]. by repeat constructor.
  - destruct (decide (c = sep)) as [->|Hc].
    + split; [done|]. by constructor.
    + destruct (py_split sep s) as [|piece pieces]; [done|].
      split; [done|]. inversion_clear IH. by repeat constructor.
Qed.

Lemma complete_chromosome_one_colon (c r : string) :
  no_char ":" c → no_char ":" r →
  _complete_chromosome (c +:+ String ":" r)
  = if py_in "M" (c +:+ String ":" r)
    then Ok ((if negb (py_in "MT" c) then "chrMT" else c) +:+ String ":" r)
    else Ok (c +:+ String ":" r).
Proof.
  intros Hc Hr. unfold _complete_chromosome.
  destruct (py_in "M" (c +:+ String ":" r)); [|done].
  rewrite py_split_app, (py_split_no_char _ r) by done. reflexivity.
Qed.

Lemma complete_chromosome_no_M (x : string) :
  py_in "M" x = false → _complete_chromosome x = Ok x.
Proof. intros HM. unfold _complete_chromosome. by rewrite HM. Qed.

Lemma complete_chromosome_idempotent (x y : string) :
  _complete_chromosome x = Ok y → _complete_chromosome y = Ok y.
Proof.
  unfold _complete_chromosome at 1. destruct (py_in "M" x) eqn:HM.
  - destruct (py_split_pieces ":" x) as [_ Hpieces].
    destruct (py_split ":" x) as [|one [|two rest]]; [done..|].
    cbn. intros [= <-].
    apply Forall_cons in Hpieces as [Hone [Htwo _]%Forall_cons].
    set (one' := if negb (py_in "MT" one) then "chrMT" else one).
    assert (Hone' : no_char ":" one' ∧ py_in "MT" one' = true).
    { unfold one'. destruct (py_in "MT" one) eqn:HMT; simpl; [done|].
      split; [|reflexivity]. by repeat split. }
    destruct Hone' as [Hnc HMT].
    change (one' +:+ "" +:+ ":" +:+ "" +:+ two) with (one' +:+ String ":" two).
    rewrite complete_chromosome_one_colon by done.
    rewrite py_in_app_r by by apply py_in_MT_M. by rewrite HMT.
  - intros [= <-]. by apply complete_chromosome_no_M.
Qed.

(** The identifier of the spec's own example has two colons: the split
    keeps the first two pieces only, so the allele part is lost and the
    result is not the identifier with its chromosome replaced. *)
Lemma complete_chromosome_drops_third_piece :
  _complete_chromosome "chrM:100:A>G" = Ok "chrMT:100"
  ∧ _complete_chromosome "chrM:100:A>G" ≠ Ok "chrMT:100:A>G".
Proof. split; [reflexivity | discriminate]. Qed.

(** C5 (amended): normalisation is idempotent (a returned identifier
    normalises to itself); an identifier without any 'M', such as
    'chr1:100:A>G', is returned unchanged; an identifier with exactly one
    ':' that contains 'M' and whose chromosome token lacks 'MT', such as
    'chrM:g.100A>G', comes back with the chromosome token replaced by
    'chrMT' and the rest intact; an identifier with exactly one ':' whose
    chromosome token contains 'MT' is returned unchanged. *)
Theorem complete_chromosome_normalises (x : string) :
  (∀ y, _complete_chromosome x = Ok y → _complete_chromosome y = Ok y)
  ∧ (py_in "M" x = false → _complete_chromosome x = Ok x)
  ∧ (∀ c r, x = c +:+ String ":" r → no_char ":" c → no_char ":" r →
       py_in "M" x = true → py_in "MT" c = false →
       _complete_chromosome x = Ok ("chrMT" +:+ String ":" r))
  ∧ (∀ c r, x = c +:+ String ":" r → no_char ":" c → no_char ":" r →
       py_in "MT" c = true → _complete_chromosome x = Ok x)
  ∧ _complete_chromosome "chr1:100:A>G" = Ok "chr1:100:A>G"
  ∧ _complete_chromosome "chrM:g.100A>G" = Ok "chrMT:g.100A>G".
Proof.
  split; [intros y; apply complete_chromosome_idempotent|].
  split; [apply complete_chromosome_no_M|].
  split; [|split; [|by split]].
  - intros c r -> Hc Hr HM HMT.
    rewrite complete_chromosome_one_colon by done. by rewrite HM, HMT.
  - intros c r -> Hc Hr HMT.
    rewrite complete_chromosome_one_colon by done.
    rewrite py_in_app_r by by apply py_in_MT_M. by rewrite HMT.
Qed.

Lemma complete_chromosome_normalises_witness :
  _complete_chromosome "chrM:g.100A>G" = Ok "chrMT:g.100A>G"
  ∧ _complete_chromosome "chrMT:g.100A>G" = Ok "chrMT:g.100A>G"
  ∧ _complete_chromosome "chr1:g.100A>G" = Ok "chr1:g.100A>G".
Proof.
  split; [|split].
  - apply (proj1 (proj2 (proj2 (complete_chromosome_normalises "chrM:g.100A>G")))
             "chrM" "g.100A>G"); try reflexivity; by repeat split.
  - apply (proj1 (complete_chromosome_normalises "chrM:g.100A>G")). reflexivity.
  - apply (proj1 (proj2 (complete_chromosome_normalises "chr1:g.100A>G"))). reflexivity.
Defined.

(** ** Merge engine *)

Lemma merge_ok (w : world) (m a : loc) (md ad : record) (v : pyval) :
  heap w !! m = Some md → heap w !! a = Some ad →
  md !! "hgvs_id" = Some v → ad !! "hgvs_id" = Some v →
  _merge_annovar_and_myvariant_dicts m a w
  = (Ok a, set_heap (<[a := md ∪ ad]> (heap w)) w).
Proof.
  intros Hm Ha Hmv Hav.
  unfold _merge_annovar_and_myvariant_dicts, dict_getitem, dict_update, bind, deref, ret.
  rewrite Hm, Hmv, Ha, Hav. rewrite decide_False by (intros ?; done).
  by rewrite Hm, Ha.
Qed.

Lemma merge_mismatch (w : world) (m a : loc) (md ad : record) (v1 v2 : pyval) :
  heap w !! m = Some md → heap w !! a = Some ad →
  md !! "hgvs_id" = Some v1 → ad !! "hgvs_id" = Some v2 → v1 ≠ v2 →
  _merge_annovar_and_myvariant_dicts m a w = (Raise (ValueError (mismatch_message v1 v2)), w).
Proof.
  intros Hm Ha Hmv Hav Hne.
  unfold _merge_annovar_and_myvariant_dicts, dict_getitem, bind, deref, ret, raise.
  rewrite Hm, Hmv, Ha, Hav. by rewrite decide_True.
Qed.

(** Either both identifiers are there and equal, and the merge updates
    the annovar dictionary in place; or the merge raises and leaves the
    world as it was. *)
Lemma merge_cases (w : world) (m a : loc) :
  (∃ md ad v,
     heap w !! m = Some md ∧ heap w !! a = Some ad
     ∧ md !! "hgvs_id" = Some v ∧ ad !! "hgvs_id" = Some v
     ∧ _merge_annovar_and_myvariant_dicts m a w
       = (Ok a, set_heap (<[a := md ∪ ad]> (heap w)) w))
  ∨ (¬ ids_agree (heap w) m a
     ∧ ∃ e, _merge_annovar_and_myvariant_dicts m a w = (Raise e, w)).
Proof.
  unfold ids_agree, id_of.
  destruct (heap w !! m) as [md|] eqn:Hm; simpl.
  2:{ right. split; [naive_solver|]. eexists.
      unfold _merge_annovar_and_myvariant_dicts, dict_getitem, bind, deref.
      by rewrite Hm. }
  destruct (md !! "hgvs_id") as [v1|] eqn:Hmv.
  2:{ right. split; [naive_solver|]. eexists.
      unfold _merge_annovar_and_myvariant_dicts, dict_getitem, bind, deref, raise.
      by rewrite Hm, Hmv. }
  destruct (heap w !! a) as [ad|] eqn:Ha; simpl.
  2:{ right. split; [naive_solver|]. eexists.
      unfold _merge_annovar_and_myvariant_dicts, dict_getitem, bind, deref, ret.
      by rewrite Hm, Hmv, Ha. }
  destruct (ad !! "hgvs_id") as [v2|] eqn:Hav.
  2:{ right. split; [naive_solver|]. eexists.
      unfold _merge_annovar_and_myvariant_dicts, dict_getitem, bind, deref, ret, raise.
      by rewrite Hm, Hmv, Ha, Hav. }
  destruct (decide (v1 = v2)) as [->|Hne].
  - left. exists md, ad, v2. repeat (split; [done|]). by eapply merge_ok.
  - right. split; [naive_solver|]. eexists. by eapply merge_mismatch.
Qed.

(** A merge never changes the identifier of any object. *)
Lemma id_of_merge (h : gmap nat record) (a d : loc) (md ad : record) (v : pyval) :
  h !! a = Some ad → md !! "hgvs_id" = Some v → ad !! "hgvs_id" = Some v →
  id_of (<[a := md ∪ ad]> h) d = id_of h d.
Proof.
  intros Ha Hmv Hav. unfold id_of. destruct (decide (a = d)) as [->|Hne].
  - rewrite lookup_insert_eq, Ha. simpl. rewrite Hav.
    by apply lookup_union_Some_l.
  - by rewrite lookup_insert_ne.
Qed.

Lemma deref_all_ok (w : world) (ds : list loc) (rs : list record) :
  records_at (heap w) ds rs → deref_all ds w = (Ok rs, w).
Proof.
  induction 1 as [|d r ds rs Hd _ IH]; [done|].
  cbn [deref_all]. unfold bind, deref at 1. rewrite Hd, IH. reflexivity.
Qed.

(** The loop fails as soon as some index it visits has a missing entry
    or two objects whose identifiers do not agree; the failure leaves
    the trace untouched. *)
Lemma merge_loop_bad_index (indices : list nat) (myv ann acc : list loc) (w : world) (i : nat) :
  i ∈ indices →
  (∀ m a, myv !! i = Some m → ann !! i = Some a → ¬ ids_agree (heap w) m a) →
  ∃ e w', merge_loop indices myv ann acc w = (Raise e, w') ∧ trace w' = trace w.
Proof.
  revert acc w. induction indices as [|j rest IH]; intros acc w Hin Hbad.
  { by apply elem_of_nil in Hin. }
  cbn [merge_loop]. unfold bind at 1, lift at 1, py_getitem at 1.
  destruct (myv !! j) as [m|] eqn:Hm; [|by eauto].
  unfold bind at 1, lift at 1, py_getitem at 1.
  destruct (ann !! j) as [a|] eqn:Ha; [|by eauto].
  unfold bind at 1.
  destruct (merge_cases w m a) as [(md & ad & v & Hhm & Hha & Hmv & Hav & ->)|[Hno [e ->]]];
    [|by eauto].
  destruct (decide (i = j)) as [->|Hij].
  { exfalso. apply (Hbad m a Hm Ha). exists v. unfold id_of.
    by rewrite Hhm, Hha. }
  apply elem_of_cons in Hin as [?|Hin]; [done|].
  destruct (IH (acc ++ [a]) (set_heap (<[a:=md ∪ ad]> (heap w)) w) Hin) as (e & w' & -> & Htr).
  { intros m' a' Hm' Ha' (v' & H1 & H2). apply (Hbad m' a' Hm' Ha'). exists v'.
    cbn [heap set_heap] in H1, H2.
    rewrite (id_of_merge _ _ m' md ad v) in H1 by done.
    by rewrite (id_of_merge _ _ a' md ad v) in H2 by done. }
  by eauto.
Qed.

Lemma records_at_frame (h h' : gmap nat record) (ds : list loc) (rs : list record) :
  records_at h ds rs → (∀ d, d ∈ ds → h' !! d = h !! d) → records_at h' ds rs.
Proof.
  induction 1 as [|d r ds rs Hd _ IH]; intros Hframe; constructor.
  - rewrite Hframe; [done|]. apply elem_of_cons; by left.
  - apply IH. intros d' Hd'. apply Hframe, elem_of_cons; by right.
Qed.

(** When the objects are distinct and the identifiers agree pairwise,
    the loop over the positions of two lists succeeds, returns the
    annovar references and leaves behind each of them the union of the
    two records. *)
Lemma merge_loop_pairs (ms as_ : list loc) (rs ls : list record) :
  ∀ (pm pa acc : list loc) (w : world),
    length pm = length pa →
    records_at (heap w) ms rs → records_at (heap w) as_ ls →
    NoDup as_ → (∀ d, d ∈ ms → d ∉ as_) →
    Forall2 same_hgvs_id rs ls →
    ∃ w',
      merge_loop (seq (length pm) (length as_)) (pm ++ ms) (pa ++ as_) acc w
      = (Ok (acc ++ as_), w')
      ∧ records_at (heap w') as_ (zip_with (∪) rs ls)
      ∧ (∀ d, d ∉ as_ → heap w' !! d = heap w !! d)
      ∧ trace w' = trace w ∧ attempts w' = attempts w.
Proof.
  revert as_ rs ls.
  induction ms as [|m ms IH]; intros as_ rs ls pm pa acc w Hlen Hms Has Hnd Hdisj Hids.
  - apply Forall2_nil_inv_l in Hms as ->.
    apply Forall2_nil_inv_l in Hids as ->.
    apply Forall2_nil_inv_r in Has as ->.
    exists w. rewrite !app_nil_r. split; [reflexivity|]. split; [constructor|done].
  - apply Forall2_cons_inv_l in Hms as (r & rs' & Hm & Hms & ->).
    apply Forall2_cons_inv_l in Hids as (l & ls' & (v & Hrv & Hlv) & Hids & ->).
    apply Forall2_cons_inv_r in Has as (a & as' & Ha & Has & ->).
    apply NoDup_cons in Hnd as [Hna Hnd].
    cbn [length seq merge_loop].
    unfold bind at 1, lift at 1, py_getitem at 1.
    rewrite list_lookup_middle by done.
    unfold bind at 1, lift at 1, py_getitem at 1.
    rewrite list_lookup_middle by done.
    unfold bind at 1. rewrite (merge_ok w m a r l v) by done.
    set (w1 := set_heap (<[a:=r ∪ l]> (heap w)) w).
    assert (Hma : m ≠ a).
    { intros ->. apply (Hdisj a); apply elem_of_cons; by left. }
    destruct (IH as' rs' ls' (pm ++ [m]) (pa ++ [a]) (acc ++ [a]) w1)
      as (w' & Hloop & Hrec & Hframe & Htr & Hat).
    + rewrite !length_app. simpl. lia.
    + apply (records_at_frame (heap w)); [done|]. intros d Hin.
      cbn [heap w1 set_heap]. rewrite lookup_insert_ne; [done|].
      intros <-. apply (Hdisj a); apply elem_of_cons; [by right | by left].
    + apply (records_at_frame (heap w)); [done|]. intros d Hin.
      cbn [heap w1 set_heap]. rewrite lookup_insert_ne; [done|].
      by intros <-.
    + done.
    + intros d Hd Hd'. apply (Hdisj d); apply elem_of_cons; by right.
    + done.
    + exists w'. rewrite length_app in Hloop. simpl in Hloop.
      rewrite Nat.add_1_r in Hloop. rewrite <- !app_assoc in Hloop. simpl in Hloop.
      rewrite Hloop. split; [done|]. split; [|split; [|done]].
      * simpl. constructor; [|done]. rewrite Hframe by done.
        cbn [heap w1 set_heap]. by rewrite lookup_insert_eq.
      * intros d Hd. apply not_elem_of_cons in Hd as [Hda Hd].
        rewrite Hframe by done. cbn [heap w1 set_heap]. by rewrite lookup_insert_ne.
Qed.

Lemma union_merged_fields (remote local : record) :
  merged_fields (remote ∪ local) local remote.
Proof.
  unfold merged_fields. split; [|split; [|split; [|split]]].
  - intros k [v Hk]. destruct (remote !! k) as [v'|] eqn:Hr.
    + exists v'. by apply lookup_union_Some_l.
    + exists v. rewrite lookup_union_r; done.
  - intros k [v Hk]. exists v. by apply lookup_union_Some_l.
  - intros k v Hk. by apply lookup_union_Some_l.
  - intros k v Hl Hr. by rewrite lookup_union_r.
  - intros k [v Hk]. apply lookup_union_Some_raw in Hk as [Hk|[_ Hk]]; eauto.
Qed.

(** C1: for aligned lists of [k] local and remote records, held by
    distinct objects, whose identifiers agree at every index, the merge
    step returns [k] documents (the local objects, updated in place);
    document [i] has every field of [local[i]] and of [remote[i]], no
    other field, and the value of [remote[i]] for every key of
    [remote[i]]; these documents are what the store sink receives. *)
Theorem merge_chunk_correct
    (store : list record → string → string → M pyval)
    (ids : list string) (myv ann : list loc) (remotes locals : list record)
    (db coll : string) (w : world) :
  length myv = length ids → length ann = length ids →
  records_at (heap w) myv remotes → records_at (heap w) ann locals →
  NoDup ann → (∀ d, d ∈ myv → d ∉ ann) →
  Forall2 same_hgvs_id remotes locals →
  ∃ w' merged,
    merge_loop (seq 0 (length ids)) myv ann [] w = (Ok ann, w')
    ∧ records_at (heap w') ann merged
    ∧ length merged = length ids
    ∧ (∀ i local remote,
         locals !! i = Some local → remotes !! i = Some remote →
         ∃ doc, merged !! i = Some doc ∧ merged_fields doc local remote)
    ∧ merge_and_store store ids myv (Some ann) db coll w = store merged db coll w'.
Proof.
  intros Hlm Hla Hms Has Hnd Hdisj Hids.
  destruct (merge_loop_pairs myv ann remotes locals [] [] [] w)
    as (w' & Hloop & Hrec & Hframe & Htr & Hat); [done..|].
  simpl in Hloop. rewrite Hla in Hloop.
  exists w', (zip_with (∪) remotes locals).
  split; [done|]. split; [done|]. split; [|split].
  - apply Forall2_length in Hms, Has.
    rewrite length_zip_with. lia.
  - intros i local remote Hl Hr. exists (remote ∪ local). split.
    + by rewrite lookup_zip_with, Hr; simpl; rewrite Hl.
    + apply union_merged_fields.
  - unfold merge_and_store, bind. rewrite Hloop. by rewrite (deref_all_ok w' ann _ Hrec).
Qed.

Lemma merge_chunk_correct_witness :
  ∃ w' merged,
    merge_loop (seq 0 1) [0%nat] [1%nat] [] sample_world = (Ok [1%nat], w')
    ∧ records_at (heap w') [1%nat] merged
    ∧ length merged = 1%nat
    ∧ (∀ i local remote,
         [sample_local] !! i = Some local → [sample_remote] !! i = Some remote →
         ∃ doc, merged !! i = Some doc ∧ merged_fields doc local remote)
    ∧ merge_and_store counting_store ["chr1:g.100A>G"] [0%nat] (Some [1%nat]) "db" "coll"
        sample_world
      = counting_store merged "db" "coll" w'.
Proof.
  apply (merge_chunk_correct counting_store ["chr1:g.100A>G"] [0%nat] [1%nat]
           [sample_remote] [sample_local] "db" "coll" sample_world).
  - reflexivity.
  - reflexivity.
  - repeat constructor.
  - repeat constructor.
  - apply NoDup_singleton.
  - intros d Hd%list_elem_of_singleton Hd'%list_elem_of_singleton. congruence.
  - repeat constructor. exists sample_id. split; reflexivity.
Defined.

Lemma merge_loop_app (l1 l2 : list nat) (myv ann acc : list loc) (w : world) :
  merge_loop (l1 ++ l2) myv ann acc w
  = match merge_loop l1 myv ann acc w with
    | (Ok acc', w') => merge_loop l2 myv ann acc' w'
    | (Raise e, w') => (Raise e, w')
    end.
Proof.
  revert acc w. induction l1 as [|j l1 IH]; intros acc w; [done|].
  cbn [app merge_loop]. unfold bind, lift.
  destruct (py_getitem myv j) as [m|e]; [|done].
  destruct (py_getitem ann j) as [a|e]; [|done].
  destruct (_merge_annovar_and_myvariant_dicts m a w) as [[merged|e] w1]; [|done].
  apply IH.
Qed.

(** The loop succeeds over indices whose entries exist and agree on the
    identifier; no identifier changes, and nothing is added to the
    trace. *)
Lemma merge_loop_agree (indices : list nat) (myv ann acc : list loc) (w : world) :
  (∀ j, j ∈ indices → ∃ m a, myv !! j = Some m ∧ ann !! j = Some a ∧ ids_agree (heap w) m a) →
  ∃ res w',
    merge_loop indices myv ann acc w = (Ok (acc ++ res), w')
    ∧ (∀ d, id_of (heap w') d = id_of (heap w) d)
    ∧ trace w' = trace w.
Proof.
  revert acc w. induction indices as [|j rest IH]; intros acc w Hall.
  { exists [], w. by rewrite app_nil_r. }
  destruct (Hall j) as (m & a & Hm & Ha & Hagree); [apply elem_of_cons; by left|].
  cbn [merge_loop]. unfold bind at 1, lift at 1, py_getitem at 1. rewrite Hm.
  unfold bind at 1, lift at 1, py_getitem at 1. rewrite Ha.
  unfold bind at 1.
  destruct (merge_cases w m a) as [(md & ad & v & Hhm & Hha & Hmv & Hav & ->)|[Hno _]];
    [|done].
  set (w1 := set_heap (<[a:=md ∪ ad]> (heap w)) w).
  assert (Hid : ∀ d, id_of (heap w1) d = id_of (heap w) d).
  { intros d. cbn [heap w1 set_heap]. by apply (id_of_merge _ _ _ md ad v). }
  destruct (IH (acc ++ [a]) w1) as (res & w' & -> & Hid' & Htr).
  { intros j' Hj'. destruct (Hall j') as (m' & a' & Hm' & Ha' & v' & H1 & H2);
      [apply elem_of_cons; by right|].
    exists m', a'. split; [done|]. split; [done|]. exists v'. by rewrite !Hid. }
  exists (a :: res), w'. rewrite <- app_assoc. split; [done|].
  split; [|done]. intros d. by rewrite Hid', Hid.
Qed.



Lemma id_of_Some (h : gmap nat record) (d : loc) (v : pyval) :
  id_of h d = Some v ↔ ∃ fields, h !! d = Some fields ∧ fields !! "hgvs_id" = Some v.
Proof.
  unfold id_of. destruct (h !! d) as [fields|]; simpl; naive_solver.
Qed.

Lemma merge_and_store_raise
    (store : list record → string → string → M pyval)
    (ids : list string) (myv ann : list loc) (db coll : string) (w w' : world) (e : exn) :
  merge_loop (seq 0 (length ids)) myv ann [] w = (Raise e, w') →
  merge_and_store store ids myv (Some ann) db coll w = (Raise e, w').
Proof. intros Hloop. unfold merge_and_store, bind. by rewrite Hloop. Qed.

Lemma merge_loop_first_mismatch (n i : nat) (myv ann : list loc) (w : world)
    (m a : loc) (v1 v2 : pyval) :
  (i < n)%nat → myv !! i = Some m → ann !! i = Some a →
  id_of (heap w) m = Some v1 → id_of (heap w) a = Some v2 → v1 ≠ v2 →
  (∀ j, (j < i)%nat →
     ∃ m' a', myv !! j = Some m' ∧ ann !! j = Some a' ∧ ids_agree (heap w) m' a') →
  ∃ w', merge_loop (seq 0 n) myv ann [] w = (Raise (ValueError (mismatch_message v1 v2)), w').
Proof.
  intros Hi Hm Ha Hv1 Hv2 Hne Hprefix.
  replace n with (i + S (n - S i))%nat by lia.
  rewrite seq_app, merge_loop_app. change (0 + i)%nat with i. cbn [seq].
  destruct (merge_loop_agree (seq 0 i) myv ann [] w) as (res & w1 & -> & Hid & _).
  { intros j Hj. apply Hprefix. apply elem_of_seq in Hj. lia. }
  cbn [merge_loop]. unfold bind at 1, lift at 1, py_getitem at 1. rewrite Hm.
  unfold bind at 1, lift at 1, py_getitem at 1. rewrite Ha.
  rewrite <- Hid in Hv1, Hv2.
  apply id_of_Some in Hv1 as (md & Hmd & Hmv).
  apply id_of_Some in Hv2 as (ad & Had & Hav).
  unfold bind at 1. rewrite (merge_mismatch w1 m a md ad v1 v2) by done. by eauto.
Qed.

(** C2: merging a remote and a local record whose 'hgvs_id' values
    differ raises at once a [ValueError] whose message names both
    identifiers, and changes nothing; and when the identifiers differ
    at some index of the two lists of a chunk, the merge step raises,
    whatever the store sink is it is not called and gets no document,
    and the error is that identifier-mismatch error when the index is
    the first one that fails. *)
Theorem merge_identifier_mismatch :
  (∀ (w : world) (m a : loc) (md ad : record) (v1 v2 : pyval),
     heap w !! m = Some md → heap w !! a = Some ad →
     md !! "hgvs_id" = Some v1 → ad !! "hgvs_id" = Some v2 → v1 ≠ v2 →
     _merge_annovar_and_myvariant_dicts m a w
     = (Raise (ValueError ("myvariant hgvs_id " +:+ py_str v1
                           +:+ " not equal to annovar hgvs_id " +:+ py_str v2)), w))
  ∧ (∀ (ids : list string) (myv ann : list loc) (w : world) (i : nat) (m a : loc)
       (v1 v2 : pyval),
       (i < length ids)%nat → myv !! i = Some m → ann !! i = Some a →
       id_of (heap w) m = Some v1 → id_of (heap w) a = Some v2 → v1 ≠ v2 →
       ∃ e w',
         merge_loop (seq 0 (length ids)) myv ann [] w = (Raise e, w')
         ∧ trace w' = trace w
         ∧ (∀ store db coll,
              merge_and_store store ids myv (Some ann) db coll w = (Raise e, w'))
         ∧ ((∀ j, (j < i)%nat →
               ∃ m' a', myv !! j = Some m' ∧ ann !! j = Some a'
                        ∧ ids_agree (heap w) m' a') →
            e = ValueError ("myvariant hgvs_id " +:+ py_str v1
                            +:+ " not equal to annovar hgvs_id " +:+ py_str v2))).
Proof.
  split; [intros; by eapply merge_mismatch|].
  intros ids myv ann w i m a v1 v2 Hi Hm Ha Hv1 Hv2 Hne.
  destruct (merge_loop_bad_index (seq 0 (length ids)) myv ann [] w i)
    as (e & w' & Hloop & Htr).
  { apply elem_of_seq. lia. }
  { intros m' a' Hm' Ha' (v & H1 & H2). simplify_eq. }
  exists e, w'. split; [done|]. split; [done|]. split.
  - intros store db coll. by apply merge_and_store_raise.
  - intros Hprefix.
    destruct (merge_loop_first_mismatch (length ids) i myv ann w m a v1 v2)
      as (w'' & Hloop'); [done..|].
    rewrite Hloop in Hloop'. by injection Hloop' as -> _.
Qed.

Lemma merge_identifier_mismatch_witness :
  _merge_annovar_and_myvariant_dicts 2%nat 1%nat sample_world
  = (Raise (ValueError
      "myvariant hgvs_id chr2:g.5T>C not equal to annovar hgvs_id chr1:g.100A>G"),
     sample_world)
  ∧ ∃ e w',
      merge_loop (seq 0 2) [0%nat; 2%nat] [1%nat; 1%nat] [] sample_world = (Raise e, w')
      ∧ trace w' = trace sample_world
      ∧ (∀ store db coll,
           merge_and_store store ["chr1:g.100A>G"; "chr1:g.100A>G"] [0%nat; 2%nat]
             (Some [1%nat; 1%nat]) db coll sample_world = (Raise e, w'))
      ∧ ((∀ j, (j < 1)%nat →
            ∃ m' a', [0%nat; 2%nat] !! j = Some m' ∧ [1%nat; 1%nat] !! j = Some a'
                     ∧ ids_agree (heap sample_world) m' a') →
         e = ValueError
               "myvariant hgvs_id chr2:g.5T>C not equal to annovar hgvs_id chr1:g.100A>G").
Proof.
  split.
  - apply (proj1 merge_identifier_mismatch sample_world 2%nat 1%nat
             sample_other_remote sample_local (PStr "chr2:g.5T>C") sample_id);
      try reflexivity. discriminate.
  - apply (proj2 merge_identifier_mismatch ["chr1:g.100A>G"; "chr1:g.100A>G"]
             [0%nat; 2%nat] [1%nat; 1%nat] sample_world 1%nat 2%nat 1%nat
             (PStr "chr2:g.5T>C") sample_id); try reflexivity.
    + simpl. lia.
    + discriminate.
Defined.




(** C9: a successful merge returns the reference of the local
    (annovar) dictionary itself and has updated that object in place: it
    now holds the remote record's fields over its own, so it has every
    remote field with the remote value; no other object changes.  When
    the merge raises, and so on an identifier mismatch, the world is
    left as it was. *)
Theorem merge_in_place (w : world) (m a : loc) (md ad : record) :
  heap w !! m = Some md → heap w !! a = Some ad →
  (∀ v, md !! "hgvs_id" = Some v → ad !! "hgvs_id" = Some v →
     ∃ w',
       _merge_annovar_and_myvariant_dicts m a w = (Ok a, w')
       ∧ heap w' !! a = Some (md ∪ ad)
       ∧ merged_fields (md ∪ ad) ad md
       ∧ (∀ d, d ≠ a → heap w' !! d = heap w !! d)
       ∧ trace w' = trace w)
  ∧ (∀ e w', _merge_annovar_and_myvariant_dicts m a w = (Raise e, w') → w' = w)
  ∧ (∀ v1 v2, md !! "hgvs_id" = Some v1 → ad !! "hgvs_id" = Some v2 → v1 ≠ v2 →
       ∃ e, _merge_annovar_and_myvariant_dicts m a w = (Raise e, w)
            ∧ heap w !! a = Some ad).
Proof.
  intros Hm Ha. split; [|split].
  - intros v Hmv Hav. eexists. split; [by eapply merge_ok|].
    cbn [heap set_heap]. split; [by rewrite lookup_insert_eq|].
    split; [apply union_merged_fields|]. split; [|done].
    intros d Hd. by rewrite lookup_insert_ne.
  - intros e w' Hmerge.
    destruct (merge_cases w m a) as [(md' & ad' & v & _ & _ & _ & _ & Hok)|[_ [e' Hr]]];
      congruence.
  - intros v1 v2 Hmv Hav Hne. eexists. split; [by eapply merge_mismatch|done].
Qed.

Lemma merge_in_place_witness :
  (∀ v, sample_remote !! "hgvs_id" = Some v → sample_local !! "hgvs_id" = Some v →
     ∃ w',
       _merge_annovar_and_myvariant_dicts 0%nat 1%nat sample_world = (Ok 1%nat, w')
       ∧ heap w' !! 1%nat = Some (sample_remote ∪ sample_local)
       ∧ merged_fields (sample_remote ∪ sample_local) sample_local sample_remote
       ∧ (∀ d, d ≠ 1%nat → heap w' !! d = heap sample_world !! d)
       ∧ trace w' = trace sample_world)
  ∧ (∀ e w', _merge_annovar_and_myvariant_dicts 0%nat 1%nat sample_world = (Raise e, w') →
       w' = sample_world)
  ∧ (∀ v1 v2, sample_remote !! "hgvs_id" = Some v1 → sample_local !! "hgvs_id" = Some v2 →
       v1 ≠ v2 →
       ∃ e, _merge_annovar_and_myvariant_dicts 0%nat 1%nat sample_world = (Raise e, sample_world)
            ∧ heap sample_world !! 1%nat = Some sample_local).
Proof.
  apply (merge_in_place sample_world 0%nat 1%nat sample_remote sample_local); reflexivity.
Defined.

(** ** Remote annotation client *)

Lemma set_heap_heap (w : world) : set_heap (heap w) w = w.
Proof. by destruct w. Qed.

Lemma dict_pop_ok (w : world) (d : loc) (fields : record) (key : string) (default : pyval) :
  heap w !! d = Some fields →
  dict_pop d key default w
  = (Ok (default_val default (fields !! key)),
     set_heap (<[d := delete key fields]> (heap w)) w).
Proof.
  intros Hd. unfold dict_pop, bind, deref, ret, default_val. rewrite Hd.
  destruct (fields !! key) as [v|] eqn:Hk; [done|].
  rewrite delete_id by done. rewrite insert_id by done. by rewrite set_heap_heap.
Qed.

Lemma dict_setitem_ok (w : world) (d : loc) (fields : record) (key : string) (v : pyval) :
  heap w !! d = Some fields →
  dict_setitem d key v w = (Ok (), set_heap (<[d := <[key := v]> fields]> (heap w)) w).
Proof. intros Hd. unfold dict_setitem, bind, deref. by rewrite Hd. Qed.

Lemma strip_ids_steps (fields : record) :
  <["hgvs_id" := default_val PNone
       ((<["hgvs_id" := default_val PNone (fields !! "_id")]> (delete "_id" fields)) !! "query")]>
    (delete "query"
       (<["hgvs_id" := default_val PNone (fields !! "_id")]> (delete "_id" fields)))
  = strip_ids fields.
Proof.
  unfold strip_ids. rewrite lookup_insert_ne, lookup_delete_ne by done.
  apply map_eq. intros k.
  destruct (decide (k = "hgvs_id")) as [->|?]; [by rewrite !lookup_insert_eq|].
  rewrite !lookup_insert_ne by done.
  destruct (decide (k = "query")) as [->|?]; [by rewrite !lookup_delete_eq|].
  rewrite !lookup_delete_ne by done. by rewrite lookup_insert_ne.
Qed.

Lemma remove_id_key_body_ok (w : world) (d : loc) (fields : record) :
  heap w !! d = Some fields →
  remove_id_key_body d w = (Ok (), set_heap (<[d := strip_ids fields]> (heap w)) w).
Proof.
  intros Hd. unfold remove_id_key_body.
  unfold bind at 1. rewrite (dict_pop_ok w d fields) by done.
  unfold bind at 1. erewrite dict_setitem_ok by (cbn [heap set_heap]; apply lookup_insert_eq).
  unfold bind at 1. erewrite dict_pop_ok by (cbn [heap set_heap]; apply lookup_insert_eq).
  erewrite dict_setitem_ok by (cbn [heap set_heap]; apply lookup_insert_eq).
  cbn [heap set_heap]. rewrite !insert_insert_eq. rewrite strip_ids_steps.
  reflexivity.
Qed.


(** On distinct dictionaries, one pass of the post-processing leaves
    [strip_ids] of each record and touches nothing else. *)
Lemma remove_id_key_ok (ds : list loc) (rs : list record) (w : world) :
  NoDup ds → records_at (heap w) ds rs →
  ∃ w',
    _remove_id_key ds w = (Ok ds, w')
    ∧ records_at (heap w') ds (strip_ids <$> rs)
    ∧ (∀ d, d ∉ ds → heap w' !! d = heap w !! d)
    ∧ trace w' = trace w ∧ attempts w' = attempts w.
Proof.
  unfold _remove_id_key, bind, ret.
  assert (Hfor : ∀ l rs w, NoDup l → records_at (heap w) l rs →
    ∃ w', for_each l remove_id_key_body w = (Ok (), w')
          ∧ records_at (heap w') l (strip_ids <$> rs)
          ∧ (∀ d, d ∉ l → heap w' !! d = heap w !! d)
          ∧ trace w' = trace w ∧ attempts w' = attempts w).
  { clear. induction l as [|d l IH]; intros rs w Hnd Hrec.
    - apply Forall2_nil_inv_l in Hrec as ->. exists w. split; [done|].
      split; [constructor|done].
    - apply Forall2_cons_inv_l in Hrec as (r & rs' & Hd & Hrec & ->).
      apply NoDup_cons in Hnd as [Hnin Hnd].
      cbn [for_each]. unfold bind. rewrite (remove_id_key_body_ok w d r Hd).
      set (w1 := set_heap _ w).
      destruct (IH rs' w1 Hnd) as (w' & -> & Hrec' & Hframe & Htr & Hat).
      { apply (records_at_frame (heap w)); [done|]. intros d' Hd'.
        cbn [heap w1 set_heap]. rewrite lookup_insert_ne; [done|]. by intros <-. }
      exists w'. split; [done|]. split; [|split; [|done]].
      + rewrite fmap_cons. constructor; [|done]. rewrite Hframe by done.
        cbn [heap w1 set_heap]. by rewrite lookup_insert_eq.
      + intros d' [Hne Hd']%not_elem_of_cons. rewrite Hframe by done.
        cbn [heap w1 set_heap]. by rewrite lookup_insert_ne. }
  intros Hnd Hrec. destruct (Hfor ds rs w Hnd Hrec) as (w' & -> & ?). by exists w'.
Qed.

(** The records answered by the service become new, distinct objects. *)
Lemma alloc_all_ok (rs : list record) (w : world) :
  ∃ ds w',
    alloc_all rs w = (Ok ds, w')
    ∧ records_at (heap w') ds rs ∧ NoDup ds
    ∧ (∀ d, d ∈ ds → heap w !! d = None)
    ∧ (∀ d, d ∉ ds → heap w' !! d = heap w !! d)
    ∧ trace w' = trace w ∧ attempts w' = attempts w.
Proof.
  revert w. induction rs as [|r rs IH]; intros w.
  - exists [], w. split; [done|]. split; [constructor|]. split; [constructor|].
    split; [|done]. by intros d ?%elem_of_nil.
  - cbn [alloc_all]. unfold bind at 1, alloc at 1.
    set (d := fresh (dom (heap w))).
    assert (Hd : heap w !! d = None).
    { apply not_elem_of_dom. apply is_fresh. }
    set (w1 := set_heap (<[d:=r]> (heap w)) w).
    destruct (IH w1) as (ds & w' & Hall & Hrec & Hnd & Hfresh & Hframe & Htr & Hat).
    unfold bind, ret. rewrite Hall.
    assert (Hnin : d ∉ ds).
    { intros Hin. apply Hfresh in Hin. cbn [heap w1 set_heap] in Hin.
      by rewrite lookup_insert_eq in Hin. }
    exists (d :: ds), w'. split; [done|]. split; [|split; [|split; [|split]]].
    + constructor; [|done]. rewrite Hframe by done.
      cbn [heap w1 set_heap]. by rewrite lookup_insert_eq.
    + by apply NoDup_cons.
    + intros d' [->|Hd']%elem_of_cons; [done|].
      apply Hfresh in Hd' as Hd''. cbn [heap w1 set_heap] in Hd''.
      destruct (decide (d = d')) as [<-|?]; [done|]. by rewrite lookup_insert_ne in Hd''.
    + intros d' [Hne Hd']%not_elem_of_cons. rewrite Hframe by done.
      cbn [heap w1 set_heap]. by rewrite lookup_insert_ne.
    + done.
Qed.

Lemma call_getvariants_ok (mv : service) (ids : list string) (gb : string) (w : world)
    (rs : list record) :
  mv (attempts w) ids gb = Ok rs →
  ∃ ds w1,
    call_getvariants mv ids gb w = (Ok ds, w1)
    ∧ records_at (heap w1) ds rs ∧ NoDup ds
    ∧ (∀ d, d ∈ ds → heap w !! d = None)
    ∧ trace w1 = trace w ++ [EGetVariants ids gb]
    ∧ attempts w1 = S (attempts w).
Proof.
  intros Hmv. unfold call_getvariants. rewrite Hmv.
  destruct (alloc_all_ok rs (World (heap w) (S (attempts w)) (trace w ++ [EGetVariants ids gb])))
    as (ds & w1 & -> & Hrec & Hnd & Hfresh & _ & Htr & Hat).
  by exists ds, w1.
Qed.

Lemma call_getvariants_raise (mv : service) (ids : list string) (gb : string) (w : world)
    (e : exn) :
  mv (attempts w) ids gb = Raise e →
  call_getvariants mv ids gb w
  = (Raise e, World (heap w) (S (attempts w)) (trace w ++ [EGetVariants ids gb])).
Proof. intros Hmv. unfold call_getvariants. by rewrite Hmv. Qed.

Lemma client_unfold (mv : service) (fuel : nat) (ids : list string) (gb : string)
    (verbose : Z) (w : world) :
  _get_myvariantinfo_annotations_dict mv (S fuel) ids gb verbose w
  = match call_getvariants mv ids gb w with
    | (Ok variant_data, w1) => Some (_remove_id_key variant_data w1)
    | (Raise error, w1) =>
        match _get_myvariantinfo_annotations_dict mv fuel ids gb
                (if decide (2 ≤ verbose) then 1 else 0)
                (emit (ESleep 5)
                   (emit (ELog ("Error: " +:+ exn_str error
                                +:+ "while fetching from MyVariant, retrying...")) w1)) with
        | None => None
        | Some (Ok variant_data, w2) => Some (_remove_id_key variant_data w2)
        | Some (Raise e, w2) => Some (Raise e, w2)
        end
    end.
Proof. reflexivity. Qed.


(** After [k] failed attempts and a successful one, the client returns
    the objects of the successful answer, provided the recursion may go
    [k] deep; the trace records each failed call with its log line and
    its sleep of 5 seconds, then the successful call.  The records have
    been post-processed once by the call that succeeded and once more by
    each of the [k] calls that wait for it. *)
Lemma client_retries (mv : service) (ids : list string) (gb : string) (rs : list record)
    (k : nat) :
  ∀ (n fuel : nat) (verbose : Z) (w : world),
    attempts w = n →
    (∀ j, (j < k)%nat → is_Raise (mv (n + j)%nat ids gb)) →
    mv (n + k)%nat ids gb = Ok rs →
    (k < fuel)%nat →
    ∃ ds w',
      _get_myvariantinfo_annotations_dict mv fuel ids gb verbose w = Some (Ok ds, w')
      ∧ attempts w' = S (n + k)
      ∧ trace w' = trace w ++ failed_attempts_trace mv n k ids gb ++ [EGetVariants ids gb]
      ∧ NoDup ds
      ∧ records_at (heap w') ds (Nat.iter (S k) strip_ids <$> rs)
      ∧ (∀ d, d ∈ ds → heap w !! d = None).
Proof.
  induction k as [|k IH]; intros n fuel verbose w Hn Hfail Hok Hfuel;
    (destruct fuel as [|fuel]; [lia|]); rewrite client_unfold.
  - rewrite Nat.add_0_r in Hok. rewrite <- Hn in Hok.
    destruct (call_getvariants_ok mv ids gb w rs Hok)
      as (ds & w1 & -> & Hrec & Hnd & Hfresh & Htr & Hat).
    destruct (remove_id_key_ok ds rs w1 Hnd Hrec) as (w' & -> & Hrec' & _ & Htr' & Hat').
    exists ds, w'. split; [done|]. split; [lia|]. split; [|done].
    by rewrite Htr', Htr.
  - destruct (Hfail 0%nat) as [e He]; [lia|]. rewrite Nat.add_0_r in He.
    rewrite <- Hn in He. rewrite (call_getvariants_raise mv ids gb w e He).
    set (w3 := emit (ESleep 5) _).
    destruct (IH (S n) fuel (if decide (2 ≤ verbose) then 1 else 0) w3)
      as (ds & w4 & -> & Hat & Htr & Hnd & Hrec & Hfresh).
    { cbn. lia. }
    { intros j Hj. replace (S n + j)%nat with (n + S j)%nat by lia. apply Hfail. lia. }
    { by replace (S n + k)%nat with (n + S k)%nat by lia. }
    { lia. }
    destruct (remove_id_key_ok ds _ w4 Hnd Hrec) as (w' & -> & Hrec' & _ & Htr' & Hat').
    exists ds, w'. split; [done|]. split; [lia|]. split.
    { rewrite Htr', Htr. cbn [failed_attempts_trace]. rewrite Hn in He. rewrite He.
      cbn [trace w3 emit]. unfold failed_attempt_trace.
      rewrite <- !app_assoc. reflexivity. }
    split; [done|]. split; [|done].
    by rewrite <- list_fmap_compose in Hrec'.
Qed.



Lemma strip_ids_fields (r : record) :
  strip_ids r !! "_id" = None
  ∧ strip_ids r !! "query" = None
  ∧ strip_ids r !! "hgvs_id" = Some (default_val PNone (r !! "query"))
  ∧ ∀ k, k ≠ "_id" → k ≠ "query" → k ≠ "hgvs_id" → strip_ids r !! k = r !! k.
Proof.
  unfold strip_ids. split; [|split; [|split]].
  - rewrite lookup_insert_ne, lookup_delete_ne by done. apply lookup_delete_eq.
  - rewrite lookup_insert_ne by done. apply lookup_delete_eq.
  - apply lookup_insert_eq.
  - intros k H1 H2 H3. by rewrite lookup_insert_ne, !lookup_delete_ne.
Qed.

(** A second pass of the post-processing finds no 'query' any more and
    overwrites 'hgvs_id' with [None]. *)
Lemma strip_ids_again (r : record) : strip_ids (strip_ids r) !! "hgvs_id" = Some PNone.
Proof.
  destruct (strip_ids_fields (strip_ids r)) as (_ & _ & -> & _).
  by destruct (strip_ids_fields r) as (_ & -> & _).
Qed.

(** X8: one pass of [_remove_id_key] over the distinct records of a
    service answer returns the same list and leaves in each record no
    '_id' and no 'query', 'hgvs_id' set to the former 'query' value
    ([None] when the record had none, whatever its '_id' was), and
    every other field as it was. *)
Lemma remove_id_key_hygiene (ds : list loc) (rs : list record) (w : world) :
  NoDup ds → records_at (heap w) ds rs →
  ∃ w',
    _remove_id_key ds w = (Ok ds, w')
    ∧ ∀ i d r, ds !! i = Some d → rs !! i = Some r →
        ∃ r', heap w' !! d = Some r'
              ∧ r' !! "_id" = None ∧ r' !! "query" = None
              ∧ r' !! "hgvs_id" = Some (default_val PNone (r !! "query"))
              ∧ ∀ k, k ≠ "_id" → k ≠ "query" → k ≠ "hgvs_id" → r' !! k = r !! k.
Proof.
  intros Hnd Hrec.
  destruct (remove_id_key_ok ds rs w Hnd Hrec) as (w' & Hrun & Hrec' & _).
  exists w'. split; [done|]. intros i d r Hd Hr.
  destruct (Forall2_lookup_l _ _ _ _ _ Hrec' Hd) as (r' & Hr' & Hheap).
  rewrite list_lookup_fmap, Hr in Hr'. simplify_eq/=.
  exists (strip_ids r). split; [done|]. apply strip_ids_fields.
Qed.

(** X9: whenever at least one attempt failed before the one that
    succeeded, every record that the client returns has 'hgvs_id' set to
    [None], whatever the service answered. *)
Lemma client_retry_ids_none (mv : service) (ids : list string) (gb : string)
    (rs : list record) (k n fuel : nat) (verbose : Z) (w : world) :
  attempts w = n →
  (∀ j, (j < S k)%nat → is_Raise (mv (n + j)%nat ids gb)) →
  mv (n + S k)%nat ids gb = Ok rs →
  (S k < fuel)%nat →
  ∃ ds w',
    _get_myvariantinfo_annotations_dict mv fuel ids gb verbose w = Some (Ok ds, w')
    ∧ length ds = length rs
    ∧ ∀ d, d ∈ ds → id_of (heap w') d = Some PNone.
Proof.
  intros Hn Hfail Hok Hfuel.
  destruct (client_retries mv ids gb rs (S k) n fuel verbose w Hn Hfail Hok Hfuel)
    as (ds & w' & Hrun & _ & _ & _ & Hrec & _).
  exists ds, w'. split; [done|]. split.
  { apply Forall2_length in Hrec. by rewrite length_fmap in Hrec. }
  intros d [i Hd]%list_elem_of_lookup.
  destruct (Forall2_lookup_l _ _ _ _ _ Hrec Hd) as (r' & Hr' & Hheap).
  rewrite list_lookup_fmap in Hr'.
  destruct (rs !! i) as [r|]; [|done]. simplify_eq/=.
  apply id_of_Some. eexists. split; [done|]. apply strip_ids_again.
Qed.

(** C6: at a service that times out once and then answers the record
    [{'_id': id, 'query': id, 'cadd.phred': ...}], the client returns a
    record whose 'hgvs_id' is [None], not [id]: the record was
    post-processed by the call that succeeded and again by the call that
    retried.  At a service that answers at once, the same record comes
    back with 'hgvs_id' = [id] and without '_id' and 'query'. *)
Theorem retry_erases_hgvs_id :
  (∃ w',
     _get_myvariantinfo_annotations_dict (flaky_service 0) 1 ["chr1:g.100A>G"] "hg19" 1
       empty_world = Some (Ok [0%nat], w')
     ∧ heap w' !! 0%nat
       = Some {[ "hgvs_id" := PStr "chr1:g.100A>G"; "cadd.phred" := PStr "12.3" ]})
  ∧ (∃ w',
       _get_myvariantinfo_annotations_dict (flaky_service 1) 2 ["chr1:g.100A>G"] "hg19" 1
         empty_world = Some (Ok [0%nat], w')
       ∧ heap w' !! 0%nat = Some {[ "hgvs_id" := PNone; "cadd.phred" := PStr "12.3" ]}).
Proof. split; eexists; vm_compute; split; reflexivity. Qed.



(** ** Identifiers from a VCF source *)

Example get_hgvs_ids_sample :
  _get_hgvs_ids_from_vcf sample_format_hgvs {[ "in.vcf" := sample_vcf ]} "in.vcf" 0 2
  = Ok ["chr1:g.100A>G"; "chrMT:g.7C>T"].
Proof. vm_compute. reflexivity. Qed.








(** * Further properties of the code *)

(** ** The job tuple, from the partitioner to the worker *)

(** X1: what the partitioner puts in a job tuple is what the worker
    reads back: job [i] gives chunk index [i] and the chunk size, file
    path, database, collection, genome build and verbosity that the
    partitioner was called with; the worker merges (reads a sample list)
    exactly when the partitioner was given a sample list, an empty one
    included. *)
Theorem job_params_round_trip fp total cs db coll gb names vl jobs (i : nat) job :
  cs ≠ 0 →
  VaprAnnotator._make_jobs_params_tuples_list fp total cs db coll gb names vl = Ok jobs →
  jobs !! i = Some job →
  read_job_params job
  = Ok (JobParams (ParInt (Z.of_nat i)) (ParInt cs) (ParStr fp) (ParStr db) (ParStr coll)
          (ParStr gb) (ParInt vl) (ParNames <$> names))
  ∧ job_merge_variants job = bool_decide (is_Some names).
Proof.
  intros Hcs. unfold VaprAnnotator._make_jobs_params_tuples_list, int_true_div.
  rewrite decide_False by done. cbn [mbind result_bind]. rewrite jobs_loop_snd.
  intros [= <-] Hi. cbn [app] in Hi. rewrite list_lookup_fmap in Hi.
  destruct (seqZ 0 (Z.quot total cs + 1) !! i) as [k|] eqn:Hk; [|done].
  apply lookup_seqZ in Hk as [-> _]. rewrite Z.add_0_l in Hi.
  injection Hi as <-. by destruct names.
Qed.

Lemma job_params_round_trip_witness :
  read_job_params [ParInt 1; ParStr "in.txt"; ParInt 3; ParStr "db"; ParStr "coll";
                   ParStr "hg19"; ParInt 1; ParNames ["s1"]]
  = Ok (JobParams (ParInt (Z.of_nat 1)) (ParInt 3) (ParStr "in.txt") (ParStr "db")
          (ParStr "coll") (ParStr "hg19") (ParInt 1) (ParNames <$> Some ["s1"]))
  ∧ job_merge_variants [ParInt 1; ParStr "in.txt"; ParInt 3; ParStr "db"; ParStr "coll";
                        ParStr "hg19"; ParInt 1; ParNames ["s1"]]
    = bool_decide (is_Some (Some ["s1"])).
Proof.
  apply (job_params_round_trip "in.txt" 5 3 "db" "coll" "hg19" (Some ["s1"]) 1
           [ [ParInt 0; ParStr "in.txt"; ParInt 3; ParStr "db"; ParStr "coll";
              ParStr "hg19"; ParInt 1; ParNames ["s1"]];
             [ParInt 1; ParStr "in.txt"; ParInt 3; ParStr "db"; ParStr "coll";
              ParStr "hg19"; ParInt 1; ParNames ["s1"]] ] 1%nat).
  - lia.
  - reflexivity.
  - reflexivity.
Defined.



(** ** Chunks of a VCF source *)







(** ** More on the identifier normaliser *)

Lemma py_in_app_l (n h t : string) : py_in n t = true → py_in n (h +:+ t) = true.
Proof.
  intros Ht. induction h as [|b h IH]; [done|].
  change (String b h +:+ t) with (String b (h +:+ t)). rewrite py_in_cons, IH.
  apply orb_true_r.
Qed.

(** X5: an identifier that contains 'M' but no ':' is not normalised:
    the call raises [IndexError]. *)
Theorem complete_chromosome_no_colon_raises (x : string) :
  py_in "M" x = true → no_char ":" x → _complete_chromosome x = Raise IndexError.
Proof.
  intros HM Hx. unfold _complete_chromosome. rewrite HM.
  by rewrite py_split_no_char.
Qed.

Lemma complete_chromosome_no_colon_raises_witness :
  _complete_chromosome "MT" = Raise IndexError.
Proof. apply (complete_chromosome_no_colon_raises "MT"); [reflexivity | by repeat split]. Defined.

(** X6: whenever an identifier that contains 'M' is normalised, the
    result has exactly one ':' and its chromosome token contains 'MT';
    everything after a second ':' of the input is dropped: the result
    is made of the first two pieces only. *)
Theorem complete_chromosome_shape (x y : string) :
  py_in "M" x = true → _complete_chromosome x = Ok y →
  (∃ one two,
     y = one +:+ String ":" two ∧ no_char ":" one ∧ no_char ":" two
     ∧ py_in "MT" one = true ∧ py_split ":" y = [one; two])
  ∧ (∀ c r t,
       x = c +:+ String ":" (r +:+ String ":" t) → no_char ":" c → no_char ":" r →
       y = (if py_in "MT" c then c else "chrMT") +:+ String ":" r).
Proof.
  intros HM. unfold _complete_chromosome at 1. rewrite HM. intros Hrun. split.
  - destruct (py_split_pieces ":" x) as [_ Hpieces].
    destruct (py_split ":" x) as [|one [|two rest]]; [done..|].
    cbn in Hrun. injection Hrun as <-.
    apply Forall_cons in Hpieces as [Hone [Htwo _]%Forall_cons].
    set (one' := if negb (py_in "MT" one) then "chrMT" else one).
    assert (Hone' : no_char ":" one' ∧ py_in "MT" one' = true).
    { unfold one'. destruct (py_in "MT" one) eqn:HMT; simpl; [done|].
      split; [|reflexivity]. by repeat split. }
    destruct Hone' as [Hnc HMT]. exists one', two.
    change (one' +:+ "" +:+ ":" +:+ "" +:+ two) with (one' +:+ String ":" two).
    split; [done|]. split; [done|]. split; [done|]. split; [done|].
    by rewrite py_split_app, (py_split_no_char _ two).
  - intros c r t -> Hc Hr.
    rewrite py_split_app in Hrun by done. rewrite py_split_app in Hrun by done.
    cbn in Hrun. injection Hrun as <-. by destruct (py_in "MT" c).
Qed.

Lemma complete_chromosome_shape_witness :
  (∃ one two,
     "chrMT:100" = one +:+ String ":" two ∧ no_char ":" one ∧ no_char ":" two
     ∧ py_in "MT" one = true ∧ py_split ":" "chrMT:100" = [one; two])
  ∧ (∀ c r t,
       "chrM:100:A>G" = c +:+ String ":" (r +:+ String ":" t) →
       no_char ":" c → no_char ":" r →
       "chrMT:100" = (if py_in "MT" c then c else "chrMT") +:+ String ":" r).
Proof.
  apply (complete_chromosome_shape "chrM:100:A>G" "chrMT:100"); reflexivity.
Defined.

(** X7: the test for 'M' is made on the whole identifier: an
    identifier with one ':' whose chromosome token has no 'MT' and whose
    part after the ':' contains 'M' gets the chromosome 'chrMT',
    whatever its chromosome token was. *)
Theorem complete_chromosome_M_in_allele (c r : string) :
  no_char ":" c → no_char ":" r → py_in "MT" c = false → py_in "M" r = true →
  _complete_chromosome (c +:+ String ":" r) = Ok ("chrMT" +:+ String ":" r).
Proof.
  intros Hc Hr HMT HM. rewrite complete_chromosome_one_colon by done.
  rewrite (py_in_app_l "M" c (String ":" r)).
  - by rewrite HMT.
  - rewrite py_in_cons, HM. apply orb_true_r.
Qed.

Lemma complete_chromosome_M_in_allele_witness :
  _complete_chromosome ("chr1" +:+ String ":" "g.100_101insM")
  = Ok ("chrMT" +:+ String ":" "g.100_101insM").
Proof.
  apply (complete_chromosome_M_in_allele "chr1" "g.100_101insM");
    try reflexivity; by repeat split.
Defined.

(** ** More on the remote client *)

Lemma remove_id_key_hygiene_witness :
  ∃ w',
    _remove_id_key [0%nat] (World {[ 0%nat := sample_service_record ]} 0 []) = (Ok [0%nat], w')
    ∧ ∀ i d r, [0%nat] !! i = Some d → [sample_service_record] !! i = Some r →
        ∃ r', heap w' !! d = Some r'
              ∧ r' !! "_id" = None ∧ r' !! "query" = None
              ∧ r' !! "hgvs_id" = Some (default_val PNone (r !! "query"))
              ∧ ∀ k, k ≠ "_id" → k ≠ "query" → k ≠ "hgvs_id" → r' !! k = r !! k.
Proof.
  apply (remove_id_key_hygiene [0%nat] [sample_service_record]
           (World {[ 0%nat := sample_service_record ]} 0 [])).
  - apply NoDup_singleton.
  - repeat constructor.
Defined.

Lemma client_retry_ids_none_witness :
  ∃ ds w',
    _get_myvariantinfo_annotations_dict (flaky_service 1) 2 ["chr1:g.100A>G"] "hg19" 1
      empty_world = Some (Ok ds, w')
    ∧ length ds = length [sample_service_record]
    ∧ ∀ d, d ∈ ds → id_of (heap w') d = Some PNone.
Proof.
  apply (client_retry_ids_none (flaky_service 1) ["chr1:g.100A>G"] "hg19"
           [sample_service_record] 0%nat 0%nat 2%nat 1 empty_world).
  - reflexivity.
  - intros j Hj. exists (ServiceError "timed out"). unfold flaky_service.
    by rewrite decide_True by lia.
  - reflexivity.
  - lia.
Defined.

(** X10: the verbosity argument has no effect on the client: the call
    of the service, the trace and the result are the same for every
    value of [verbose]. *)
Theorem client_ignores_verbose (mv : service) (ids : list string) (gb : string)
    (fuel : nat) (verbose1 verbose2 : Z) (w : world) :
  _get_myvariantinfo_annotations_dict mv fuel ids gb verbose1 w
  = _get_myvariantinfo_annotations_dict mv fuel ids gb verbose2 w.
Proof.
  revert verbose1 verbose2 w. induction fuel as [|fuel IH]; intros v1 v2 w; [done|].
  rewrite !client_unfold.
  destruct (call_getvariants mv ids gb w) as [[ds|e] w1]; [done|].
  by rewrite (IH (if decide (2 ≤ v1) then 1 else 0) (if decide (2 ≤ v2) then 1 else 0)).
Qed.

(** ** More on the merge *)

(** X12: a record without 'hgvs_id' makes the merge raise
    [KeyError('hgvs_id')] and change nothing; the remote record is
    looked at first, so this happens when the remote record lacks the
    key, whatever the local record holds, and when only the local record
    lacks it. *)
Theorem merge_missing_identifier (w : world) (m a : loc) (md ad : record) :
  heap w !! m = Some md → heap w !! a = Some ad →
  (md !! "hgvs_id" = None →
     _merge_annovar_and_myvariant_dicts m a w = (Raise (KeyError "hgvs_id"), w))
  ∧ (is_Some (md !! "hgvs_id") → ad !! "hgvs_id" = None →
     _merge_annovar_and_myvariant_dicts m a w = (Raise (KeyError "hgvs_id"), w)).
Proof.
  intros Hm Ha.
  unfold _merge_annovar_and_myvariant_dicts, dict_getitem, bind, deref, ret, raise.
  rewrite Hm. split.
  - by intros ->.
  - intros [v ->] Hav. by rewrite Ha, Hav.
Qed.

Lemma merge_missing_identifier_witness :
  _merge_annovar_and_myvariant_dicts 0%nat 1%nat
    (World {[ 0%nat := sample_remote; 1%nat := ∅ ]} 0 [])
  = (Raise (KeyError "hgvs_id"), World {[ 0%nat := sample_remote; 1%nat := ∅ ]} 0 []).
Proof.
  destruct (merge_missing_identifier (World {[ 0%nat := sample_remote; 1%nat := ∅ ]} 0 [])
              0%nat 1%nat sample_remote ∅) as [_ Hlocal].
  - reflexivity.
  - reflexivity.
  - apply Hlocal; [by eexists | reflexivity].
Defined.

(** X13: merging the same pair a second time succeeds and changes
    nothing more, and a merge never modifies the remote object (when it
    is not the local object itself). *)
Theorem merge_twice (w : world) (m a : loc) (md ad : record) (v : pyval) :
  heap w !! m = Some md → heap w !! a = Some ad →
  md !! "hgvs_id" = Some v → ad !! "hgvs_id" = Some v →
  ∃ w1,
    _merge_annovar_and_myvariant_dicts m a w = (Ok a, w1)
    ∧ _merge_annovar_and_myvariant_dicts m a w1 = (Ok a, w1)
    ∧ (m ≠ a → heap w1 !! m = Some md).
Proof.
  intros Hm Ha Hmv Hav.
  exists (set_heap (<[a := md ∪ ad]> (heap w)) w).
  split; [by eapply merge_ok|]. split.
  - destruct (decide (m = a)) as [->|Hne].
    + assert (md = ad) as -> by congruence.
      rewrite (idemp (∪) ad).
      erewrite (merge_ok _ a a ad ad v); [|cbn [heap set_heap]; apply lookup_insert_eq..|done|done].
      cbn [heap set_heap]. rewrite (idemp (∪) ad), insert_insert_eq. done.
    + erewrite (merge_ok _ m a md (md ∪ ad) v).
      * cbn [heap set_heap]. rewrite (assoc (∪)), (idemp (∪) md), insert_insert_eq. done.
      * cbn [heap set_heap]. by rewrite lookup_insert_ne.
      * cbn [heap set_heap]. apply lookup_insert_eq.
      * done.
      * by apply lookup_union_Some_l.
  - intros Hne. cbn [heap set_heap]. by rewrite lookup_insert_ne.
Qed.

Lemma merge_twice_witness :
  ∃ w1,
    _merge_annovar_and_myvariant_dicts 0%nat 1%nat sample_world = (Ok 1%nat, w1)
    ∧ _merge_annovar_and_myvariant_dicts 0%nat 1%nat w1 = (Ok 1%nat, w1)
    ∧ (0%nat ≠ 1%nat → heap w1 !! 0%nat = Some sample_remote).
Proof.
  apply (merge_twice sample_world 0%nat 1%nat sample_remote sample_local sample_id);
    reflexivity.
Defined.

(** X14: without local annotations (basic mode) nothing is merged and
    the identifier list is not looked at: the store sink receives the
    remote records as they are, however many identifiers were asked
    for. *)
Theorem basic_mode_stores_remote_records
    (store : list record → string → string → M pyval)
    (ids : list string) (myv : list loc) (rs : list record) (db coll : string) (w : world) :
  records_at (heap w) myv rs →
  merge_and_store store ids myv None db coll w = store rs db coll w.
Proof.
  intros Hrec. unfold merge_and_store, bind, ret. by rewrite (deref_all_ok w myv rs Hrec).
Qed.

Lemma basic_mode_stores_remote_records_witness :
  merge_and_store counting_store [] [0%nat; 2%nat] None "db" "coll" sample_world
  = counting_store [sample_remote; sample_other_remote] "db" "coll" sample_world.
Proof.
  apply (basic_mode_stores_remote_records counting_store [] [0%nat; 2%nat]
           [sample_remote; sample_other_remote] "db" "coll" sample_world).
  repeat constructor.
Defined.

(** ** A retried chunk in merge mode *)

Lemma call_getvariants_Ok_inv (mv : service) (ids : list string) (gb : string)
    (w w1 : world) (ds : list loc) :
  call_getvariants mv ids gb w = (Ok ds, w1) →
  ∃ rs, NoDup ds ∧ records_at (heap w1) ds rs
        ∧ (∀ d, d ∈ ds → heap w !! d = None)
        ∧ (∀ d, d ∉ ds → heap w1 !! d = heap w !! d).
Proof.
  unfold call_getvariants. destruct (mv (attempts w) ids gb) as [rs|e]; [|done].
  destruct (alloc_all_ok rs (World (heap w) (S (attempts w)) (trace w ++ [EGetVariants ids gb])))
    as (ds' & w1' & -> & Hrec & Hnd & Hfresh & Hframe & _).
  intros [= <- <-]. by exists rs.
Qed.

Lemma call_getvariants_Raise_inv (mv : service) (ids : list string) (gb : string)
    (w w1 : world) (e : exn) :
  call_getvariants mv ids gb w = (Raise e, w1) → heap w1 = heap w.
Proof.
  unfold call_getvariants. destruct (mv (attempts w) ids gb) as [rs|e'].
  - destruct (alloc_all_ok rs
                (World (heap w) (S (attempts w)) (trace w ++ [EGetVariants ids gb])))
      as (ds' & w1' & -> & _). done.
  - by intros [= _ <-].
Qed.

(** The client returns new objects only, and leaves the objects that
    were there before as they were. *)
Lemma client_frame (mv : service) (ids : list string) (gb : string) (fuel : nat) :
  ∀ (verbose : Z) (w : world) (r : result (list loc)) (w' : world),
    _get_myvariantinfo_annotations_dict mv fuel ids gb verbose w = Some (r, w') →
    ∃ ds rs,
      r = Ok ds ∧ NoDup ds ∧ records_at (heap w') ds rs
      ∧ (∀ d, d ∈ ds → heap w !! d = None)
      ∧ (∀ d, d ∉ ds → heap w' !! d = heap w !! d).
Proof.
  induction fuel as [|fuel IH]; intros verbose w r w'; [done|].
  rewrite client_unfold.
  destruct (call_getvariants mv ids gb w) as [[ds|e] w1] eqn:Hcall.
  - destruct (call_getvariants_Ok_inv _ _ _ _ _ _ Hcall) as (rs & Hnd & Hrec & Hfresh & Hframe).
    destruct (remove_id_key_ok ds rs w1 Hnd Hrec) as (w2 & -> & Hrec' & Hframe' & _).
    intros [= <- <-]. exists ds, (strip_ids <$> rs).
    split; [done|]. split; [done|]. split; [done|]. split; [done|].
    intros d Hd. by rewrite Hframe', Hframe.
  - apply call_getvariants_Raise_inv in Hcall.
    set (w3 := emit (ESleep 5) _).
    destruct (_get_myvariantinfo_annotations_dict mv fuel ids gb _ w3)
      as [[r4 w4]|] eqn:Hrec; [|done].
    destruct (IH _ _ _ _ Hrec) as (ds & rs & -> & Hnd & Hrecs & Hfresh & Hframe).
    destruct (remove_id_key_ok ds rs w4 Hnd Hrecs) as (w5 & -> & Hrec' & Hframe' & _).
    intros [= <- <-]. exists ds, (strip_ids <$> rs).
    cbn [heap w3 emit] in Hfresh, Hframe. rewrite Hcall in Hfresh, Hframe.
    split; [done|]. split; [done|]. split; [done|]. split; [done|].
    intros d Hd. by rewrite Hframe', Hframe.
Qed.

(** X15: in merge mode, a chunk whose service call had to be retried
    cannot be merged: the client returns records whose 'hgvs_id' is
    [None], so the merge of the first record raises the
    identifier-mismatch [ValueError] against the local identifier, and
    the store sink is not called. *)
Theorem retried_chunk_cannot_merge (mv : service) (ids : list string) (gb : string)
    (r0 : record) (rs : list record) (k n fuel : nat) (verbose : Z) (w : world)
    (ann : list loc) (a : loc) (v : pyval) :
  attempts w = n →
  (∀ j, (j < S k)%nat → is_Raise (mv (n + j)%nat ids gb)) →
  mv (n + S k)%nat ids gb = Ok (r0 :: rs) →
  (S k < fuel)%nat →
  ids ≠ [] → ann !! 0%nat = Some a → id_of (heap w) a = Some v → v ≠ PNone →
  ∃ ds w' w'',
    _get_myvariantinfo_annotations_dict mv fuel ids gb verbose w = Some (Ok ds, w')
    ∧ ∀ store db coll,
        merge_and_store store ids ds (Some ann) db coll w'
        = (Raise (ValueError ("myvariant hgvs_id None not equal to annovar hgvs_id "
                              +:+ py_str v)), w'').
Proof.
  intros Hn Hfail Hok Hfuel Hids Ha Hv Hne.
  destruct (client_retries mv ids gb (r0 :: rs) (S k) n fuel verbose w Hn Hfail Hok Hfuel)
    as (ds & w' & Hrun & _ & _ & _ & Hrec & Hfresh).
  destruct (client_frame _ _ _ _ _ _ _ _ Hrun) as (ds' & rs' & [= <-] & _ & _ & _ & Hframe).
  rewrite fmap_cons in Hrec.
  apply Forall2_cons_inv_r in Hrec as (d0 & ds0 & Hd0 & _ & ->).
  assert (Hid0 : id_of (heap w') d0 = Some PNone).
  { apply id_of_Some. eexists. split; [done|]. apply strip_ids_again. }
  assert (Hida : id_of (heap w') a = Some v).
  { unfold id_of in *. rewrite Hframe; [done|]. intros Hin. apply Hfresh in Hin.
    by rewrite Hin in Hv. }
  destruct (merge_loop_first_mismatch (length ids) 0 (d0 :: ds0) ann w' d0 a PNone v)
    as (w'' & Hloop); [by destruct ids; [|simpl; lia]|done..| |].
  { intros j Hj. lia. }
  exists (d0 :: ds0), w', w''. split; [done|].
  intros store db coll. by apply merge_and_store_raise.
Qed.

Lemma retried_chunk_cannot_merge_witness :
  ∃ ds w' w'',
    _get_myvariantinfo_annotations_dict (flaky_service 1) 2 ["chr1:g.100A>G"] "hg19" 1
      (World {[ 7%nat := sample_local ]} 0 []) = Some (Ok ds, w')
    ∧ ∀ store db coll,
        merge_and_store store ["chr1:g.100A>G"] ds (Some [7%nat]) db coll w'
        = (Raise (ValueError ("myvariant hgvs_id None not equal to annovar hgvs_id "
                              +:+ py_str sample_id)), w'').
Proof.
  apply (retried_chunk_cannot_merge (flaky_service 1) ["chr1:g.100A>G"] "hg19"
           sample_service_record [] 0%nat 0%nat 2%nat 1
           (World {[ 7%nat := sample_local ]} 0 []) [7%nat] 7%nat sample_id).
  - reflexivity.
  - intros j Hj. exists (ServiceError "timed out"). unfold flaky_service.
    by rewrite decide_True by lia.
  - reflexivity.
  - lia.
  - discriminate.
  - reflexivity.
  - reflexivity.
  - discriminate.
Defined.

(** ** Genome build validation *)

(** X16: the validated genome build is always one of the supported
    builds and validating it again gives it back; no build at all gives
    the default 'hg19'; any other build raises a [ValueError] that names
    the build and the supported ones. *)
Theorem validated_genome_version (input : option string) :
  (∀ v, _get_validated_genome_version input = Ok v →
     v ∈ SUPPORTED_GENOME_BUILD_VERSIONS ∧ _get_validated_genome_version (Some v) = Ok v)
  ∧ (input = None → _get_validated_genome_version input = Ok "hg19")
  ∧ (∀ s, input = Some s → s ∉ SUPPORTED_GENOME_BUILD_VERSIONS →
       _get_validated_genome_version input
       = Raise (ValueError ("Input genome build version '" +:+ s
                            +:+ "' is not recognized. Supported builds are hg19, hg38"))).
Proof.
  split; [|split].
  - intros v. destruct input as [s|]; cbn [_get_validated_genome_version].
    + destruct (decide (s ∉ SUPPORTED_GENOME_BUILD_VERSIONS)) as [Hn|Hin]; [done|].
      intros [= <-]. apply dec_stable in Hin. split; [done|].
      by rewrite decide_False by (intros Hn; by apply Hn).
    + intros [= <-]. split; [|done]. apply elem_of_cons. by left.
  - by intros ->.
  - intros s -> Hs. cbn [_get_validated_genome_version]. by rewrite decide_True.
Qed.

Lemma validated_genome_version_witness :
  _get_validated_genome_version (Some "hg17")
  = Raise (ValueError ("Input genome build version '" +:+ "hg17"
                       +:+ "' is not recognized. Supported builds are hg19, hg38")).
Proof.
  apply (proj2 (proj2 (validated_genome_version (Some "hg17"))) "hg17"); [reflexivity|].
  intros Hin. repeat (apply elem_of_cons in Hin as [Hin|Hin]; [discriminate|]).
  by apply elem_of_nil in Hin.
Defined.

(** ** Batches of ANNOVAR jobs *)





(** ** What the merge loop keeps *)

(** X11: whether it succeeds or raises, the merge loop of a chunk
    never changes the 'hgvs_id' of any object, creates or removes no
    object, and adds nothing to the trace: a local object keeps its
    identifier through every merge. *)
Theorem merge_loop_keeps_identifiers (indices : list nat) (myv ann acc : list loc)
    (w w' : world) (r : result (list loc)) :
  merge_loop indices myv ann acc w = (r, w') →
  (∀ d, id_of (heap w') d = id_of (heap w) d)
  ∧ (∀ d, is_Some (heap w' !! d) ↔ is_Some (heap w !! d))
  ∧ trace w' = trace w.
Proof.
  revert acc w. induction indices as [|j rest IH]; intros acc w.
  { cbn. by intros [= <- <-]. }
  cbn [merge_loop]. unfold bind at 1, lift at 1.
  destruct (py_getitem myv j) as [m|e]; [|by intros [= <- <-]].
  unfold bind at 1, lift at 1.
  destruct (py_getitem ann j) as [a|e]; [|by intros [= <- <-]].
  unfold bind at 1.
  destruct (merge_cases w m a) as [(md & ad & v & Hm & Ha & Hmv & Hav & ->)|[_ [e ->]]];
    [|by intros [= <- <-]].
  intros (Hid & Hdom & Htr)%IH. cbn [heap set_heap trace] in Hid, Hdom, Htr.
  split; [|split; [|done]].
  - intros d. by rewrite Hid, (id_of_merge _ _ _ md ad v).
  - intros d. rewrite Hdom. destruct (decide (a = d)) as [<-|?].
    + rewrite lookup_insert_eq, Ha. split; by eauto.
    + by rewrite lookup_insert_ne.
Qed.

Lemma merge_loop_keeps_identifiers_witness :
  (∀ d, id_of (heap (set_heap (<[1%nat := sample_remote ∪ sample_local]> (heap sample_world))
                       sample_world)) d
        = id_of (heap sample_world) d)
  ∧ (∀ d, is_Some (heap (set_heap (<[1%nat := sample_remote ∪ sample_local]>
                                     (heap sample_world)) sample_world) !! d)
          ↔ is_Some (heap sample_world !! d))
  ∧ trace (set_heap (<[1%nat := sample_remote ∪ sample_local]> (heap sample_world))
             sample_world) = trace sample_world.
Proof.
  apply (merge_loop_keeps_identifiers [0%nat] [0%nat] [1%nat] [] sample_world _ (Ok [1%nat])).
  reflexivity.
Defined.

(** ** ANNOVAR database downloads *)

Example build_db_dl_sample :
  (build_db_dl_command_str sample_wrapper false ["clinvar_20161128"; "cytoBand"]).1
  = Ok ["perl /opt/annovar/annotate_variation.pl -build hg19 -downdb webfrom annovar clinvar_20161128 /opt/annovar/humandb/";
        "perl /opt/annovar/annotate_variation.pl -build hg19 -downdb cytoBand /opt/annovar/humandb/"].
Proof. vm_compute. reflexivity. Qed.

Lemma odict_get_set {V : Type} (d : list (string * V)) (k k' : string) (v : V) :
  odict_get (odict_set d k v) k' = if decide (k = k') then Some v else odict_get d k'.
Proof.
  induction d as [|[k0 v0] d IH]; simpl.
  - by destruct (decide (k = k')).
  - destruct (decide (k0 = k)) as [->|Hne]; simpl.
    + by destruct (decide (k = k')).
    + rewrite IH. destruct (decide (k0 = k')) as [->|?]; [|done].
      by rewrite decide_False.
Qed.

Lemma odict_get_keys {V : Type} (d : list (string * V)) (k : string) :
  is_Some (odict_get d k) ↔ k ∈ d.*1.
Proof.
  induction d as [|[k0 v0] d IH]; simpl.
  - split; [by intros [? ?] | by intros ?%elem_of_nil].
  - rewrite elem_of_cons. destruct (decide (k0 = k)) as [->|Hne].
    + split; [by left | by eauto].
    + rewrite IH. naive_solver.
Qed.

Lemma check_supported_Ok (self : annovar_wrapper) (dbs : list string) :
  Forall (λ db, is_Some (odict_get (databases self) db)) dbs →
  check_supported self dbs = Ok ().
Proof.
  induction 1 as [|db dbs [op Hop] _ IH]; [done|].
  cbn [check_supported]. by rewrite Hop.
Qed.

Lemma check_supported_inv (self : annovar_wrapper) (dbs : list string) (u : unit) :
  check_supported self dbs = Ok u →
  Forall (λ db, is_Some (odict_get (databases self) db)) dbs.
Proof.
  induction dbs as [|db dbs IH]; [by constructor|].
  cbn [check_supported]. destruct (odict_get (databases self) db) as [op|] eqn:Hop; [|done].
  intros Hrest. constructor; [by eexists | by apply IH].
Qed.

Lemma select_databases_Ok (self : annovar_wrapper) (dbs : list string)
    (acc selected : list (string * string)) :
  select_databases self dbs acc = Ok selected →
  ∀ k, odict_get selected k
       = if decide (k ∈ dbs) then odict_get (databases self) k else odict_get acc k.
Proof.
  revert acc. induction dbs as [|db dbs IH]; intros acc.
  - cbn. intros [= <-] k. rewrite decide_False; [done|]. by intros ?%elem_of_nil.
  - cbn [select_databases].
    destruct (odict_get (databases self) db) as [op|] eqn:Hop; [|done].
    intros Hsel k. rewrite (IH _ Hsel k), odict_get_set.
    destruct (decide (k ∈ dbs)) as [Hin|Hnin].
    + rewrite decide_True; [done|]. apply elem_of_cons. by right.
    + destruct (decide (db = k)) as [->|Hne].
      * rewrite decide_True; [done|]. apply elem_of_cons. by left.
      * rewrite decide_False; [done|]. intros [->|?]%elem_of_cons; done.
Qed.

Lemma list_ascii_of_string_app (s t : string) :
  String.list_ascii_of_string (s +:+ t)
  = String.list_ascii_of_string s ++ String.list_ascii_of_string t.
Proof. induction s as [|c s IH]; [done|]. simpl. by rewrite IH. Qed.

Lemma str_at_neg2_humandb (p : string) : py_str_at_neg2 (p +:+ "humandb/") = Ok "b".
Proof.
  unfold py_str_at_neg2. rewrite list_ascii_of_string_app, reverse_app. reflexivity.
Qed.

Lemma append_assoc (a b c : string) : (a +:+ b) +:+ c = a +:+ (b +:+ c).
Proof.
  induction a as [|x a IH]; [done|].
  change (String x ((a +:+ b) +:+ c) = String x (a +:+ (b +:+ c))). by rewrite IH.
Qed.

Lemma db_dl_commands_Ok (self : annovar_wrapper) (dbs : list string)
    (acc cmds : list string) :
  db_dl_commands self dbs acc = Ok cmds →
  ∃ new, cmds = acc ++ new ∧ length new = length dbs
         ∧ Forall (λ c, py_str_at_neg2 c = Ok "b") new.
Proof.
  revert acc. induction dbs as [|db dbs IH]; intros acc.
  - cbn. intros [= <-]. exists []. by rewrite app_nil_r.
  - cbn [db_dl_commands]. destruct (annovar_hosted self !! db) as [hosted|]; [|done].
    intros (new & -> & Hlen & Hnew)%IH. eexists (_ :: new).
    rewrite <- app_assoc. split; [done|]. split; [simpl; by rewrite Hlen|].
    constructor; [|done].
    destruct hosted; cbn [String.concat]; rewrite <- !append_assoc;
      apply str_at_neg2_humandb.
Qed.

Lemma build_db_dl_first_unsupported (self : annovar_wrapper) (dbs_ok : list string)
    (db : string) (rest : list string) :
  Forall (λ d, is_Some (odict_get (databases self) d)) dbs_ok →
  odict_get (databases self) db = None →
  build_db_dl_command_str self false (dbs_ok ++ db :: rest)
  = (Raise (ValueError ("Database " +:+ db +:+ " not supported for build version "
                        +:+ buildver self)), self).
Proof.
  intros Hok Hdb. unfold build_db_dl_command_str. cbn [negb].
  assert (Hcheck : check_supported self (dbs_ok ++ db :: rest)
                   = Raise (ValueError ("Database " +:+ db
                                        +:+ " not supported for build version "
                                        +:+ buildver self))).
  { induction Hok as [|d ds [op Hop] _ IH]; cbn [app check_supported].
    - by rewrite Hdb.
    - by rewrite Hop. }
  by rewrite Hcheck.
Qed.

(** X18: a selective download that names a database the build does
    not support raises a [ValueError] naming the first such database
    and the build, builds no command and leaves the wrapper's databases
    as they were. *)
Theorem db_dl_unsupported (self : annovar_wrapper) (dbs_ok : list string) (db : string)
    (rest : list string) :
  Forall (λ d, is_Some (odict_get (databases self) d)) dbs_ok →
  odict_get (databases self) db = None →
  build_db_dl_command_str self false (dbs_ok ++ db :: rest)
  = (Raise (ValueError ("Database " +:+ db +:+ " not supported for build version "
                        +:+ buildver self)), self).
Proof. apply build_db_dl_first_unsupported. Qed.

Lemma db_dl_unsupported_witness :
  build_db_dl_command_str sample_wrapper false (["cytoBand"] ++ "dbnsfp30a" :: ["knownGene"])
  = (Raise (ValueError ("Database " +:+ "dbnsfp30a" +:+ " not supported for build version "
                        +:+ buildver sample_wrapper)), sample_wrapper).
Proof.
  apply (db_dl_unsupported sample_wrapper ["cytoBand"] "dbnsfp30a" ["knownGene"]).
  - repeat constructor. by eexists.
  - reflexivity.
Defined.

(** X19: a selective download that succeeds narrows the wrapper's
    databases to the ones asked for, with their operations, and returns
    one command for each of them; the narrowing stays: a later selective
    download of a database outside that selection raises the
    not-supported [ValueError], even if the build had it at first. *)
Theorem db_dl_selection_narrows (self self' : annovar_wrapper) (dbs cmds : list string) :
  build_db_dl_command_str self false dbs = (Ok cmds, self') →
  (∀ db, is_Some (odict_get (databases self') db) ↔ db ∈ dbs)
  ∧ (∀ db, db ∈ dbs → odict_get (databases self') db = odict_get (databases self) db)
  ∧ length cmds = length (databases self')
  ∧ (∀ db' more,
       db' ∉ dbs →
       build_db_dl_command_str self' false (db' :: more)
       = (Raise (ValueError ("Database " +:+ db' +:+ " not supported for build version "
                             +:+ buildver self)), self')).
Proof.
  unfold build_db_dl_command_str at 1. cbn [negb].
  destruct (check_supported self dbs) as [u|e] eqn:Hcheck; [|done].
  apply check_supported_inv in Hcheck.
  destruct (select_databases self dbs []) as [selected|e] eqn:Hsel; [|done].
  pose proof (select_databases_Ok _ _ _ _ Hsel) as Hget.
  intros [= Hcmds <-]. cbn [databases set_databases] in *.
  apply db_dl_commands_Ok in Hcmds as (new & -> & Hlen & _).
  split; [|split; [|split]].
  - intros db. rewrite Hget. destruct (decide (db ∈ dbs)) as [Hin|Hnin].
    + split; [done|]. intros _. by apply (proj1 (Forall_forall _ _) Hcheck).
    + split; [by intros [? ?] | done].
  - intros db Hin. rewrite Hget. by rewrite decide_True.
  - simpl. by rewrite Hlen, length_fmap.
  - intros db' more Hnin.
    apply (build_db_dl_first_unsupported (set_databases self selected) [] db' more);
      [constructor|].
    cbn [databases set_databases]. rewrite Hget. by rewrite decide_False.
Qed.

Lemma db_dl_selection_narrows_witness :
  (∀ db, is_Some (odict_get (databases (build_db_dl_command_str sample_wrapper false
                                           ["cytoBand"]).2) db) ↔ db ∈ ["cytoBand"])
  ∧ (∀ db, db ∈ ["cytoBand"] →
       odict_get (databases (build_db_dl_command_str sample_wrapper false ["cytoBand"]).2) db
       = odict_get (databases sample_wrapper) db)
  ∧ length ["perl /opt/annovar/annotate_variation.pl -build hg19 -downdb cytoBand /opt/annovar/humandb/"]
    = length (databases (build_db_dl_command_str sample_wrapper false ["cytoBand"]).2)
  ∧ (∀ db' more,
       db' ∉ ["cytoBand"] →
       build_db_dl_command_str (build_db_dl_command_str sample_wrapper false ["cytoBand"]).2
         false (db' :: more)
       = (Raise (ValueError ("Database " +:+ db' +:+ " not supported for build version "
                             +:+ buildver sample_wrapper)),
          (build_db_dl_command_str sample_wrapper false ["cytoBand"]).2)).
Proof.
  apply (db_dl_selection_narrows sample_wrapper _ ["cytoBand"]). vm_compute. reflexivity.
Defined.

(** X20: with a command list built by [build_db_dl_command_str], the
    character that [on_created] looks for, the one before the last of
    the last command, is the 'b' of 'humandb/': the handler logs the
    created path and stops the observer exactly when that path contains
    a 'b', as every path under 'humandb/' does. *)
Theorem on_created_stops_on_b (self self' : annovar_wrapper) (all_dbs : bool)
    (dbs cmds : list string) (src_path : string) :
  build_db_dl_command_str self all_dbs dbs = (Ok cmds, self') → cmds ≠ [] →
  on_created cmds src_path = (["Downloading: " +:+ src_path], Ok (py_in "b" src_path)).
Proof.
  intros Hbuild Hne.
  assert (Hall : Forall (λ c, py_str_at_neg2 c = Ok "b") cmds).
  { unfold build_db_dl_command_str in Hbuild. destruct all_dbs; cbn [negb] in Hbuild.
    - injection Hbuild as Hcmds _.
      by apply db_dl_commands_Ok in Hcmds as (new & -> & _ & Hnew).
    - destruct (check_supported self dbs); [|done].
      destruct (select_databases self dbs []); [|done].
      injection Hbuild as Hcmds _.
      by apply db_dl_commands_Ok in Hcmds as (new & -> & _ & Hnew). }
  unfold on_created, py_last. f_equal.
  destruct (last cmds) as [c|] eqn:Hlast.
  - cbn [mbind result_bind].
    rewrite (proj1 (Forall_forall _ _) Hall c); [done|].
    apply last_Some in Hlast as [l' ->]. apply elem_of_app. right. apply elem_of_cons. by left.
  - by apply last_None in Hlast.
Qed.

Lemma on_created_stops_on_b_witness :
  on_created
    ["perl /opt/annovar/annotate_variation.pl -build hg19 -downdb cytoBand /opt/annovar/humandb/"]
    "/opt/annovar/humandb/hg19_cytoBand.txt"
  = (["Downloading: " +:+ "/opt/annovar/humandb/hg19_cytoBand.txt"],
     Ok (py_in "b" "/opt/annovar/humandb/hg19_cytoBand.txt")).
Proof.
  apply (on_created_stops_on_b sample_wrapper
           (build_db_dl_command_str sample_wrapper false ["cytoBand"]).2 false ["cytoBand"]).
  - vm_compute. reflexivity.
  - discriminate.
Defined.
